(** * Product Scene Generator: the ImageUploader control and the App controller

    A shallow embedding of [src/App.tsx] and of the ImageUploader component
    ([components/ImageUploader]).

    - JavaScript strings are sequences of UTF-16 code units, [null] is
      [None], and a condition on a string tests its truthiness.
    - React state is an explicit record.  Every event callback is one turn
      of the single-threaded event loop; the [setState] calls of a turn are
      applied in order and the page is rendered from the state at the end
      of the turn (React batches the writes of one synchronous run).
    - [fileToBase64] and [generateProductScene], whose code is not in the
      embedded files, are calls to the environment: [handleGenerate]
      suspends at each [await], and a later turn resumes it with the value
      the call resolved with or the reason it was rejected with.
    - The page delivers a click to [handleGenerate] only while the submit
      button is enabled.  The handler has a branch for an incomplete form
      all the same, so a direct call of the handler is an event of its own,
      kept apart from the events of the page. *)

From Stdlib Require Import List NArith Bool String Ascii Lia PeanoNat.
Import ListNotations.

(* ===================================================================== *)
(** ** JavaScript strings and values *)
(* ===================================================================== *)

Module Js.

(** A string is its sequence of UTF-16 code units. *)
Definition jsstring := list N.

(** An ASCII literal of the source as code units. *)
Definition lit (s : string) : jsstring :=
  map N_of_ascii (list_ascii_of_string s).

(** [s.startsWith(p)] *)
Fixpoint startsWith (s p : jsstring) : bool :=
  match p with
  | [] => true
  | c :: p' =>
      match s with
      | [] => false
      | d :: s' => N.eqb c d && startsWith s' p'
      end
  end.

(** WhiteSpace and LineTerminator code points of ECMAScript, the
    characters [String.prototype.trim] strips. *)
Definition isWhiteSpace (c : N) : bool :=
  existsb (N.eqb c)
    [9; 10; 11; 12; 13; 32; 160; 5760; 8232; 8233; 8239; 8287; 12288; 65279]%N
  || (N.leb 8192 c && N.leb c 8202).

Fixpoint trimStart (s : jsstring) : jsstring :=
  match s with
  | [] => []
  | c :: s' => if isWhiteSpace c then trimStart s' else s
  end.

Definition trimEnd (s : jsstring) : jsstring := rev (trimStart (rev s)).

(** [s.trim()] *)
Definition trim (s : jsstring) : jsstring := trimEnd (trimStart s).

(** Truthiness of a string: only the empty string is falsy. *)
Definition truthy (s : jsstring) : bool :=
  match s with [] => false | _ :: _ => true end.

(** Truthiness of a [string | null]. *)
Definition truthy_opt (o : option jsstring) : bool :=
  match o with None => false | Some s => truthy s end.

(** A [File]: the code reads only its declared [type]. *)
Record File := mkFile {
  file_name : jsstring;
  file_type : jsstring;
  file_bytes : list N
}.

(** A thrown value (or rejection reason), as the [catch] clause tells
    them apart: an instance of [Error] with its [message], or anything
    else. *)
Inductive Thrown :=
| ErrorInstance (message : jsstring)
| NotAnError (value : jsstring).

(** How an awaited promise settles. *)
Inductive Outcome :=
| Resolved (v : jsstring)
| Rejected (e : Thrown).

End Js.
Import Js.

(* ===================================================================== *)
(** ** ImageUploader *)
(* ===================================================================== *)

Module ImageUploader.

(** What a handler of the control does to the outside in one turn. *)
Inductive Effect :=
| Alert (msg : jsstring)               (* alert(msg), blocking *)
| ReadAsDataURL (f : File)             (* reader.readAsDataURL(f) *)
| OnFileChange (f : option File)       (* the parent's callback *)
| PreventDefault
| StopPropagation.

(** The component: its [preview] state, the [files] of the native input
    that [fileInputRef.current] points to ([None] while the ref is null)
    and the FileReaders whose read has not ended yet. *)
Record Picker := mkPicker {
  preview : option jsstring;
  fileInputRef : option (list File);
  readers : list File
}.

Definition mounted : Picker :=
  {| preview := None; fileInputRef := Some []; readers := [] |}.

Definition setPreview (v : option jsstring) (p : Picker) : Picker :=
  {| preview := v; fileInputRef := fileInputRef p; readers := readers p |}.

Definition startReader (f : File) (p : Picker) : Picker :=
  {| preview := preview p; fileInputRef := fileInputRef p;
     readers := readers p ++ [f] |}.

Definition setInputFiles (fs : list File) (p : Picker) : Picker :=
  {| preview := preview p; fileInputRef := Some fs; readers := readers p |}.

Definition isImage (f : File) : bool :=
  startsWith (file_type f) (lit "image/").

(** [files?.[0] || null] *)
Definition firstFile (files : option (list File)) : option File :=
  match files with
  | Some (f :: _) => Some f
  | _ => None
  end.

(** [handleFileChange]: the [change] handler of the native input;
    [files] is [event.target.files]. *)
Definition handleFileChange (files : option (list File)) (p : Picker)
  : Picker * list Effect :=
  match firstFile files with
  | Some file =>
      if negb (isImage file) then
        (p, [Alert (lit "Please select an image file.")])
      else
        (startReader file p, [ReadAsDataURL file; OnFileChange (Some file)])
  | None =>
      (setPreview None p, [OnFileChange None])
  end.

(** [handleDrop]; [files] is [event.dataTransfer.files]. *)
Definition handleDrop (files : option (list File)) (p : Picker)
  : Picker * list Effect :=
  let pre := [PreventDefault; StopPropagation] in
  match firstFile files with
  | Some file =>
      if isImage file then
        let p1 := startReader file p in
        let p2 := match fileInputRef p1 with
                  | Some _ => setInputFiles [file] p1
                  | None => p1
                  end in
        (p2, pre ++ [ReadAsDataURL file; OnFileChange (Some file)])
      else
        (p, pre ++ [Alert (lit "Please drop an image file.")])
  | None =>
      (p, pre ++ [Alert (lit "Please drop an image file.")])
  end.

(** [reader.onloadend] of the [i]-th pending reader: [result] is
    [reader.result], null when the read failed. *)
Definition onloadend (i : nat) (result : option jsstring) (p : Picker)
  : Picker * list Effect :=
  match nth_error (readers p) i with
  | Some _ =>
      ({| preview := result; fileInputRef := fileInputRef p;
          readers := firstn i (readers p) ++ skipn (S i) (readers p) |}, [])
  | None => (p, [])
  end.

(** The events one control receives. *)
Inductive Event :=
| DialogChange (chosen : list File)   (* the user closes the file dialog *)
| Drop (files : option (list File))
| LoadEnd (i : nat) (result : option jsstring).

(** One turn.  The browser stores the dialog's choice in the native
    input and then dispatches [change] with that input as the target. *)
Definition step (e : Event) (p : Picker) : Picker * list Effect :=
  match e with
  | DialogChange chosen =>
      handleFileChange (Some chosen) (setInputFiles chosen p)
  | Drop files => handleDrop files p
  | LoadEnd i result => onloadend i result p
  end.

(** The files the parent's callback was called with, in order. *)
Fixpoint reported (es : list Effect) : list (option File) :=
  match es with
  | [] => []
  | OnFileChange f :: es' => f :: reported es'
  | _ :: es' => reported es'
  end.

Fixpoint alerts (es : list Effect) : list jsstring :=
  match es with
  | [] => []
  | Alert m :: es' => m :: alerts es'
  | _ :: es' => alerts es'
  end.

End ImageUploader.

(* ===================================================================== *)
(** ** Asynchronous handlers *)
(* ===================================================================== *)

Module Async.

(** The React state of [App]. *)
Record State := mkState {
  productImage : option File;
  logoImage : option File;
  subject : jsstring;
  scene : jsstring;
  generatedImage : option jsstring;
  isLoading : bool;
  error : option jsstring
}.

(** The state setters. *)
Inductive Write :=
| SetProductImage (f : option File)
| SetLogoImage (f : option File)
| SetSubject (v : jsstring)
| SetScene (v : jsstring)
| SetGeneratedImage (v : option jsstring)
| SetIsLoading (b : bool)
| SetError (v : option jsstring).

Definition write (w : Write) (s : State) : State :=
  match w with
  | SetProductImage f =>
      mkState f (logoImage s) (subject s) (scene s)
              (generatedImage s) (isLoading s) (error s)
  | SetLogoImage f =>
      mkState (productImage s) f (subject s) (scene s)
              (generatedImage s) (isLoading s) (error s)
  | SetSubject v =>
      mkState (productImage s) (logoImage s) v (scene s)
              (generatedImage s) (isLoading s) (error s)
  | SetScene v =>
      mkState (productImage s) (logoImage s) (subject s) v
              (generatedImage s) (isLoading s) (error s)
  | SetGeneratedImage v =>
      mkState (productImage s) (logoImage s) (subject s) (scene s)
              v (isLoading s) (error s)
  | SetIsLoading b =>
      mkState (productImage s) (logoImage s) (subject s) (scene s)
              (generatedImage s) b (error s)
  | SetError v =>
      mkState (productImage s) (logoImage s) (subject s) (scene s)
              (generatedImage s) (isLoading s) v
  end.

(** The calls to the collaborators, with the arguments they get. *)
Inductive Call :=
| FileToBase64 (file : option File)
| GenerateProductScene (productB64 logoB64 subject scene : jsstring).

(** A handler body: state writes, [console.error], and [await]s at which
    the handler hands control back until the call is settled. *)
Inductive t (A : Type) : Type :=
| Ret (a : A)
| Throw (e : Thrown)
| Set_ (w : Write) (k : t A)
| ConsoleError (e : Thrown) (k : t A)
| Await (c : Call) (k : Outcome -> t A).

Arguments Ret {A} a.
Arguments Throw {A} e.
Arguments Set_ {A} w k.
Arguments ConsoleError {A} e k.
Arguments Await {A} c k.

Fixpoint bind {A B : Type} (p : t A) (f : A -> t B) : t B :=
  match p with
  | Ret a => f a
  | Throw e => Throw e
  | Set_ w k => Set_ w (bind k f)
  | ConsoleError e k => ConsoleError e (bind k f)
  | Await c k => Await c (fun o => bind (k o) f)
  end.

(** [try { p } catch (err) { h err }] *)
Fixpoint tryCatch {A : Type} (p : t A) (h : Thrown -> t A) : t A :=
  match p with
  | Ret a => Ret a
  | Throw e => h e
  | Set_ w k => Set_ w (tryCatch k h)
  | ConsoleError e k => ConsoleError e (tryCatch k h)
  | Await c k => Await c (fun o => tryCatch (k o) h)
  end.

(** [try { p } finally { q }]: [q] runs however [p] ends. *)
Fixpoint tryFinally {A : Type} (p : t A) (q : t unit) : t A :=
  match p with
  | Ret a => bind q (fun _ => Ret a)
  | Throw e => bind q (fun _ => Throw e)
  | Set_ w k => Set_ w (tryFinally k q)
  | ConsoleError e k => ConsoleError e (tryFinally k q)
  | Await c k => Await c (fun o => tryFinally (k o) q)
  end.

Definition set (w : Write) : t unit := Set_ w (Ret tt).
Definition consoleError (e : Thrown) : t unit := ConsoleError e (Ret tt).

(** [await c]: the value the call resolves with; a rejection is thrown
    at the [await]. *)
Definition await (c : Call) : t jsstring :=
  Await c (fun o => match o with
                    | Resolved v => Ret v
                    | Rejected e => Throw e
                    end).

Declare Scope async_scope.
Delimit Scope async_scope with async.
Notation "x <- p ;; q" := (bind p (fun x => q))
  (at level 61, p at next level, right associativity) : async_scope.
Notation "p ;; q" := (bind p (fun _ => q))
  (at level 61, right associativity) : async_scope.

(** What a turn shows to the outside. *)
Inductive Obs :=
| Called (c : Call)
| Logged (e : Thrown)
| Uncaught (e : Thrown).

(** One turn of a handler: it runs until it ends or reaches an [await];
    the call of that [await] is made in this turn. *)
Fixpoint run_turn (p : t unit) (s : State)
  : State * list Obs * option (t unit) :=
  match p with
  | Ret _ => (s, [], None)
  | Throw e => (s, [Uncaught e], None)
  | Set_ w k => run_turn k (write w s)
  | ConsoleError e k =>
      let '(s', obs, r) := run_turn k s in (s', Logged e :: obs, r)
  | Await c k => (s, [Called c], Some (Await c k))
  end.

(** A suspended handler resumes when its call is settled. *)
Definition resume (p : t unit) (o : Outcome) : t unit :=
  match p with
  | Await _ k => k o
  | _ => Ret tt
  end.

(** A handler run to its end, the calls settled as [outs] says, with no
    other event in between.  The result keeps what is still suspended
    when [outs] is used up. *)
Fixpoint run (outs : list Outcome) (p : t unit) (s : State)
  : State * list Obs * option (t unit) :=
  let '(s1, obs1, r1) := run_turn p s in
  match r1, outs with
  | Some q, o :: outs' =>
      let '(s2, obs2, r2) := run outs' (resume q o) s1 in
      (s2, obs1 ++ obs2, r2)
  | _, _ => (s1, obs1, r1)
  end.

Fixpoint calls (obs : list Obs) : list Call :=
  match obs with
  | [] => []
  | Called c :: obs' => c :: calls obs'
  | _ :: obs' => calls obs'
  end.

Definition isGenerate (c : Call) : bool :=
  match c with GenerateProductScene _ _ _ _ => true | _ => false end.

(** How often GenerationClient was invoked. *)
Definition generations (obs : list Obs) : nat :=
  List.length (filter isGenerate (calls obs)).

(** What a run showed, and what it left suspended. *)
Definition obsOf (x : State * list Obs * option (t unit)) : list Obs :=
  snd (fst x).

Definition restOf (x : State * list Obs * option (t unit))
  : option (t unit) := snd x.

End Async.

(* ===================================================================== *)
(** ** App *)
(* ===================================================================== *)

Module App.
Import Async.
Local Open Scope async_scope.

Definition initial : State :=
  mkState None None [] [] None false None.

Definition isSome {A : Type} (o : option A) : bool :=
  match o with Some _ => true | None => false end.

(** [productImage && logoImage && subject.trim() && scene.trim()], as the
    conditions that read it see it. *)
Definition isFormValid (s : State) : bool :=
  isSome (productImage s) && isSome (logoImage s)
  && truthy (trim (subject s)) && truthy (trim (scene s)).

Definition validation_message : jsstring :=
  lit "Please fill in all fields and upload both images.".

Definition unknown_error_message : jsstring :=
  lit "An unknown error occurred. Check the console for details.".

(** [err instanceof Error ? err.message : "An unknown error ..."] *)
Definition message_of (err : Thrown) : jsstring :=
  match err with
  | ErrorInstance m => m
  | NotAnError _ => unknown_error_message
  end.

(** The [try] block of [handleGenerate]. *)
Definition generation (s : State) : t unit :=
  productB64 <- await (FileToBase64 (productImage s)) ;;
  logoB64 <- await (FileToBase64 (logoImage s)) ;;
  resultImage <- await (GenerateProductScene productB64 logoB64
                                             (subject s) (scene s)) ;;
  set (SetGeneratedImage (Some resultImage)).

(** The [catch] clause. *)
Definition report (err : Thrown) : t unit :=
  consoleError err ;;
  set (SetError (Some (message_of err))).

(** [handleGenerate], the closure of the render that saw state [s]. *)
Definition handleGenerate (s : State) : t unit :=
  if negb (isFormValid s) then
    set (SetError (Some validation_message))
  else
    set (SetIsLoading true) ;;
    set (SetError None) ;;
    set (SetGeneratedImage None) ;;
    tryFinally (tryCatch (generation s) report)
               (set (SetIsLoading false)).

(** [disabled={!isFormValid || isLoading}] of the submit button. *)
Definition disabled (s : State) : bool :=
  negb (isFormValid s) || isLoading s.

(** The four blocks of the result panel. *)
Inductive Panel :=
| LoadingIndicator
| ErrorPanel (message : jsstring)
| ResultImage (src : jsstring)
| EmptyPlaceholder.

(** The result panel: each block is rendered when its own condition
    holds, in the order of the source. *)
Definition render (s : State) : list Panel :=
  (if isLoading s then [LoadingIndicator] else [])
  ++ match error s with
     | Some m => if truthy m then [ErrorPanel m] else []
     | None => []
     end
  ++ match generatedImage s with
     | Some g => if truthy g && negb (isLoading s) then [ResultImage g]
                 else []
     | None => []
     end
  ++ (if negb (isLoading s) && negb (truthy_opt (error s))
         && negb (truthy_opt (generatedImage s))
      then [EmptyPlaceholder] else []).

(** *** The page: App, its two ImageUploaders, the handlers in flight *)

Inductive Slot := ProductSlot | LogoSlot.

Inductive Obs :=
| FromApp (o : Async.Obs)
| FromPicker (slot : Slot) (e : ImageUploader.Effect).

Record World := mkWorld {
  app : State;
  productPicker : ImageUploader.Picker;
  logoPicker : ImageUploader.Picker;
  pending : list (t unit);      (* suspended runs of handleGenerate *)
  trace : list Obs
}.

Definition start : World :=
  mkWorld initial ImageUploader.mounted ImageUploader.mounted [] [].

Inductive Event :=
| PickerEvent (slot : Slot) (e : ImageUploader.Event)
| ChangeSubject (v : jsstring)      (* onChange of the subject input *)
| ChangeScene (v : jsstring)        (* onChange of the scene textarea *)
| ClickGenerate                     (* a click on the submit button *)
| CallHandleGenerate                (* handleGenerate called directly *)
| Settle (i : nat) (o : Outcome).   (* the i-th awaited call settles *)

Definition picker (slot : Slot) (w : World) : ImageUploader.Picker :=
  match slot with
  | ProductSlot => productPicker w
  | LogoSlot => logoPicker w
  end.

(** [onFileChange={setProductImage}] and [onFileChange={setLogoImage}] *)
Definition onFileChange (slot : Slot) (f : option File) : Write :=
  match slot with
  | ProductSlot => SetProductImage f
  | LogoSlot => SetLogoImage f
  end.

Definition setApp (s : State) (w : World) : World :=
  mkWorld s (productPicker w) (logoPicker w) (pending w) (trace w).

Definition setPicker (slot : Slot) (p : ImageUploader.Picker) (w : World)
  : World :=
  match slot with
  | ProductSlot => mkWorld (app w) p (logoPicker w) (pending w) (trace w)
  | LogoSlot => mkWorld (app w) (productPicker w) p (pending w) (trace w)
  end.

Definition emit (obs : list Obs) (w : World) : World :=
  mkWorld (app w) (productPicker w) (logoPicker w) (pending w)
          (trace w ++ obs).

Definition opt_list {A : Type} (o : option A) : list A :=
  match o with Some a => [a] | None => [] end.

(** A turn of the control in [slot]; the parent's callback writes the
    App state in the same turn. *)
Definition pickerTurn (slot : Slot) (e : ImageUploader.Event) (w : World)
  : World :=
  let '(p, effs) := ImageUploader.step e (picker slot w) in
  let s := fold_left (fun s f => write (onFileChange slot f) s)
                     (ImageUploader.reported effs) (app w) in
  emit (map (FromPicker slot) effs) (setApp s (setPicker slot p w)).

(** A call of [handleGenerate]: its first turn. *)
Definition invoke (w : World) : World :=
  let '(s, obs, r) := run_turn (handleGenerate (app w)) (app w) in
  mkWorld s (productPicker w) (logoPicker w)
          (pending w ++ opt_list r)
          (trace w ++ map FromApp obs).

(** The turn in which the [i]-th suspended handler goes on. *)
Definition settle (i : nat) (o : Outcome) (w : World) : World :=
  match nth_error (pending w) i with
  | Some p =>
      let '(s, obs, r) := run_turn (resume p o) (app w) in
      mkWorld s (productPicker w) (logoPicker w)
              (firstn i (pending w) ++ opt_list r ++ skipn (S i) (pending w))
              (trace w ++ map FromApp obs)
  | None => w
  end.

(** One turn of the page.  A disabled button gets no click. *)
Definition step (e : Event) (w : World) : World :=
  match e with
  | PickerEvent slot pe => pickerTurn slot pe w
  | ChangeSubject v => setApp (write (SetSubject v) (app w)) w
  | ChangeScene v => setApp (write (SetScene v) (app w)) w
  | ClickGenerate => if disabled (app w) then w else invoke w
  | CallHandleGenerate => invoke w
  | Settle i o => settle i o w
  end.

Definition steps (es : list Event) (w : World) : World :=
  fold_left (fun w e => step e w) es w.

(** The events the page itself delivers: everything but a direct call
    of the handler. *)
Definition fromPage (e : Event) : bool :=
  match e with CallHandleGenerate => false | _ => true end.

Definition anyEvent (e : Event) : bool := true.

(** The worlds reached from [start] by events that satisfy [ok]. *)
Inductive reachable (ok : Event -> bool) : World -> Prop :=
| reach_start : reachable ok start
| reach_step e w : reachable ok w -> ok e = true -> reachable ok (step e w).

(** The calls that App has made so far. *)
Fixpoint appObs (tr : list Obs) : list Async.Obs :=
  match tr with
  | [] => []
  | FromApp o :: tr' => o :: appObs tr'
  | FromPicker _ _ :: tr' => appObs tr'
  end.

(** *** The tagged state of the specification *)

(** The specification's GenerationResult. *)
Inductive GenerationResult :=
| Idle
| Loading
| Error (message : jsstring)
| Success (image : jsstring).

(** The tag the three stored fields stand for, when they stand for
    exactly one. *)
Definition generationResult (s : State) : option GenerationResult :=
  match isLoading s, error s, generatedImage s with
  | false, None, None => Some Idle
  | true, None, None => Some Loading
  | false, Some m, None => Some (Error m)
  | false, None, Some g => Some (Success g)
  | _, _, _ => None
  end.



(** FormState is incomplete: an image is absent, or subject or scene is
    empty after trimming. *)
Definition incomplete (s : State) : Prop :=
  productImage s = None \/ logoImage s = None
  \/ trim (subject s) = [] \/ trim (scene s) = [].

(** FormState is complete: both images present, subject and scene
    non-empty after trimming. *)
Definition complete (s : State) : Prop :=
  (exists p l, productImage s = Some p /\ logoImage s = Some l)
  /\ trim (subject s) <> [] /\ trim (scene s) <> [].

(** The selection App holds for a control. *)
Definition selection (slot : Slot) (s : State) : option File :=
  match slot with
  | ProductSlot => productImage s
  | LogoSlot => logoImage s
  end.

(** *** The three suspension points of [handleGenerate] *)

Definition guarded (body : t unit) : t unit :=
  tryFinally (tryCatch body report) (set (SetIsLoading false)).

(** Suspended at [await fileToBase64(productImage)]. *)
Definition awaitingProduct (s : State) : t unit :=
  guarded (generation s).

(** Suspended at [await fileToBase64(logoImage)]. *)
Definition awaitingLogo (s : State) (productB64 : jsstring) : t unit :=
  guarded
    (logoB64 <- await (FileToBase64 (logoImage s)) ;;
     resultImage <- await (GenerateProductScene productB64 logoB64
                                                (subject s) (scene s)) ;;
     set (SetGeneratedImage (Some resultImage))).

(** Suspended at [await generateProductScene(...)]. *)
Definition awaitingResult (s : State) (productB64 logoB64 : jsstring)
  : t unit :=
  guarded
    (resultImage <- await (GenerateProductScene productB64 logoB64
                                                (subject s) (scene s)) ;;
     set (SetGeneratedImage (Some resultImage))).

Inductive InFlight : t unit -> Prop :=
| flight_product s : InFlight (awaitingProduct s)
| flight_logo s p : InFlight (awaitingLogo s p)
| flight_result s p l : InFlight (awaitingResult s p l).

(** The call a suspended handler waits for. *)
Definition awaited (p : t unit) : option Call :=
  match p with
  | Await c _ => Some c
  | _ => None
  end.

(** What holds of every world the page's own events lead to: either
    nothing is in flight and the result fields stand for Idle, Error or
    Success, or exactly one run of [handleGenerate] is suspended and
    the fields stand for Loading. *)
Definition Settled (w : World) : Prop :=
  pending w = []
  /\ exists g, generationResult (app w) = Some g /\ g <> Loading.

Definition Busy (w : World) : Prop :=
  (exists p, pending w = [p] /\ InFlight p)
  /\ generationResult (app w) = Some Loading.

Definition PageInv (w : World) : Prop := Settled w \/ Busy w.

(** The three writes that open a submission. *)
Definition enterLoading (s : State) : State :=
  write (SetGeneratedImage None)
        (write (SetError None) (write (SetIsLoading true) s)).

(** The writes of the form fields. *)
Definition formWrite (x : Write) : bool :=
  match x with
  | SetProductImage _ | SetLogoImage _ | SetSubject _ | SetScene _ => true
  | _ => false
  end.

End App.

(* ===================================================================== *)
(** ** Sample values *)
(* ===================================================================== *)

Module Samples.
Import Async App.

Definition cat_png : File :=
  mkFile (lit "cat.png") (lit "image/png") [137; 80; 78; 71]%N.

Definition logo_png : File :=
  mkFile (lit "logo.png") (lit "image/png") [137; 80; 78; 71; 13]%N.

Definition document_pdf : File :=
  mkFile (lit "document.pdf") (lit "application/pdf") [37; 80; 68; 70]%N.

(** Both images chosen, both texts typed: the form of the scenario
    "A dog" / "On the moon". *)
Definition fill_form : list Event :=
  [ PickerEvent ProductSlot (ImageUploader.DialogChange [cat_png]);
    PickerEvent LogoSlot (ImageUploader.Drop (Some [logo_png]));
    ChangeSubject (lit "A dog");
    ChangeScene (lit "On the moon") ].

Definition filled : World := steps fill_form start.

(** The button is clicked and the product image is being encoded. *)
Definition encoding_product : World := step ClickGenerate filled.

(** Both encodes have resolved; GenerationClient has been called. *)
Definition generating : World :=
  steps [ Settle 0 (Resolved (lit "data:image/png;base64,iVBO"));
          Settle 0 (Resolved (lit "data:image/png;base64,iVBORw")) ]
        encoding_product.

(** GenerationClient has resolved. *)
Definition succeeded : World :=
  step (Settle 0 (Resolved (lit "data:image/png;base64,AAAA"))) generating.

(** After the success the subject is blanked and [handleGenerate] is
    called although the button is disabled. *)
Definition blanked : World :=
  step (ChangeSubject (lit "   ")) succeeded.

Definition stale_result : World := step CallHandleGenerate blanked.

(** The encode of the product image fails instead. *)
Definition encode_failed : World :=
  step (Settle 0 (Rejected (NotAnError (lit "[object ProgressEvent]"))))
       encoding_product.


(** GenerationClient rejects. *)
Definition quota_exceeded : World :=
  step (Settle 0 (Rejected (ErrorInstance (lit "quota exceeded")))) generating.

End Samples.

(* ===================================================================== *)
(** ** What the controls show, and what the page keeps sound *)
(* ===================================================================== *)

Module Props.
Import Async App.

(** The inside of the drop zone of a control: [preview ? <img> : prompt]. *)
Inductive PickerView :=
| PreviewImage (src : jsstring)
| UploadPrompt.

Definition view (p : ImageUploader.Picker) : PickerView :=
  match ImageUploader.preview p with
  | Some ((_ :: _) as src) => PreviewImage src
  | _ => UploadPrompt
  end.

(** The events that edit the form: the two controls and the two texts. *)
Definition formEvent (e : Event) : bool :=
  match e with
  | PickerEvent _ _ | ChangeSubject _ | ChangeScene _ => true
  | _ => false
  end.

(** A text with a character that [trim] keeps. *)
Definition nonBlank (s : jsstring) : bool :=
  existsb (fun c => negb (isWhiteSpace c)) s.

(** A [File | null] that is null or an image file. *)
Definition isImageOpt (o : option File) : bool :=
  match o with
  | Some f => ImageUploader.isImage f
  | None => true
  end.

Definition soundForm (s : State) : bool :=
  isImageOpt (productImage s) && isImageOpt (logoImage s).

(** A call a collaborator can make sense of: an encode of an image file,
    a generation with two texts that are not blank. *)
Definition soundCall (c : Call) : bool :=
  match c with
  | FileToBase64 (Some f) => ImageUploader.isImage f
  | FileToBase64 None => false
  | GenerateProductScene _ _ sj sc => truthy (trim sj) && truthy (trim sc)
  end.

(** A suspended run of [handleGenerate] whose closure saw a valid form
    holding image files. *)
Inductive SoundFlight : t unit -> Prop :=
| sound_product s :
    isFormValid s = true -> soundForm s = true ->
    SoundFlight (awaitingProduct s)
| sound_logo s p :
    isFormValid s = true -> soundForm s = true ->
    SoundFlight (awaitingLogo s p)
| sound_result s p l :
    isFormValid s = true -> soundForm s = true ->
    SoundFlight (awaitingResult s p l).

Definition Sound (w : World) : Prop :=
  soundForm (app w) = true
  /\ Forall SoundFlight (pending w)
  /\ forallb soundCall (calls (appObs (trace w))) = true.

(** No exception left a handler. *)
Definition noUncaught (obs : list Async.Obs) : bool :=
  forallb (fun o => match o with Uncaught _ => false | _ => true end) obs.

Definition stateOf (x : State * list Async.Obs * option (t unit)) : State :=
  fst (fst x).

End Props.

Import Async App.

(* ===================================================================== *)
(** ** Facts about strings *)
(* ===================================================================== *)

Section Strings.

Lemma trimStart_nil_iff (s : jsstring) :
  trimStart s = [] <-> forallb isWhiteSpace s = true.
Proof.
  induction s as [|c s IH]; simpl.
  - tauto.
  - destruct (isWhiteSpace c); simpl; [exact IH | split; discriminate].
Qed.

Lemma forallb_rev {A : Type} (f : A -> bool) (l : list A) :
  forallb f (rev l) = forallb f l.
Proof.
  induction l as [|a l IH]; simpl; [reflexivity|].
  rewrite forallb_app, IH. simpl. rewrite andb_true_r. apply andb_comm.
Qed.

Lemma trimStart_keeps_whitespace (s : jsstring) :
  forallb isWhiteSpace (trimStart s) = forallb isWhiteSpace s.
Proof.
  induction s as [|c s IH]; simpl; [reflexivity|].
  destruct (isWhiteSpace c) eqn:E; simpl; [exact IH | now rewrite E].
Qed.

(** A string trims to the empty string exactly when it is empty or
    whitespace only. *)
Lemma trim_nil_iff (s : jsstring) :
  trim s = [] <-> forallb isWhiteSpace s = true.
Proof.
  unfold trim, trimEnd. split; intros H.
  - apply (f_equal (@rev N)) in H. rewrite rev_involutive in H. simpl in H.
    apply trimStart_nil_iff in H. rewrite forallb_rev in H.
    now rewrite trimStart_keeps_whitespace in H.
  - apply trimStart_nil_iff in H. now rewrite H.
Qed.

Lemma truthy_false_iff (s : jsstring) : truthy s = false <-> s = [].
Proof. destruct s; simpl; split; congruence. Qed.

End Strings.

(* ===================================================================== *)
(** ** The ImageUploader control *)
(* ===================================================================== *)

Section Picker.

Import ImageUploader.

Lemma picker_setPicker slot p w : picker slot (setPicker slot p w) = p.
Proof. now destruct slot. Qed.

Lemma picker_setApp slot s w : picker slot (setApp s w) = picker slot w.
Proof. now destruct slot. Qed.

Lemma picker_emit slot obs w : picker slot (emit obs w) = picker slot w.
Proof. now destruct slot. Qed.

Lemma selection_onFileChange slot f s :
  selection slot (write (onFileChange slot f) s) = f.
Proof. now destruct slot. Qed.

(** What a turn of a control does to the page, in terms of the turn of
    the control alone. *)
Lemma pickerTurn_spec slot e w p effs :
  ImageUploader.step e (picker slot w) = (p, effs) ->
  picker slot (pickerTurn slot e w) = p
  /\ trace (pickerTurn slot e w) = trace w ++ map (FromPicker slot) effs
  /\ pending (pickerTurn slot e w) = pending w
  /\ app (pickerTurn slot e w)
     = fold_left (fun s f => write (onFileChange slot f) s)
                 (reported effs) (app w).
Proof.
  intros H. unfold pickerTurn. rewrite H.
  rewrite picker_emit, picker_setApp, picker_setPicker.
  destruct slot; repeat split.
Qed.

(** A file that is not an image: both handlers alert and do nothing
    else the parent or the preview could see. *)
Lemma reject_turn (f : File) (rest : list File) (e : ImageUploader.Event)
      (p : Picker) :
  isImage f = false ->
  e = DialogChange (f :: rest) \/ e = Drop (Some (f :: rest)) ->
  exists p' effs msg,
    ImageUploader.step e p = (p', effs)
    /\ reported effs = [] /\ alerts effs = [msg]
    /\ (msg = lit "Please select an image file."
        \/ msg = lit "Please drop an image file.")
    /\ preview p' = preview p /\ readers p' = readers p.
Proof.
  intros Hf [-> | ->]; simpl.
  - unfold handleFileChange; simpl. rewrite Hf; simpl.
    eexists _, _, _; repeat split. now left.
  - unfold handleDrop; simpl. rewrite Hf; simpl.
    eexists _, _, _; repeat split. now right.
Qed.

(** An image file: both handlers start a read and call the parent once,
    with the file; the preview is not touched in this turn. *)
Lemma accept_turn (f : File) (rest : list File) (e : ImageUploader.Event)
      (p : Picker) :
  isImage f = true ->
  e = DialogChange (f :: rest) \/ e = Drop (Some (f :: rest)) ->
  exists p' effs,
    ImageUploader.step e p = (p', effs)
    /\ reported effs = [Some f] /\ alerts effs = []
    /\ preview p' = preview p /\ readers p' = readers p ++ [f].
Proof.
  intros Hf [-> | ->]; simpl.
  - unfold handleFileChange; simpl. rewrite Hf; simpl.
    now eexists _, _; repeat split.
  - unfold handleDrop; simpl. rewrite Hf; simpl.
    destruct (fileInputRef p); now eexists _, _; repeat split.
Qed.

Lemma drop_last {A : Type} (rs : list A) (f : A) :
  firstn (List.length rs) (rs ++ [f])
  ++ skipn (S (List.length rs)) (rs ++ [f]) = rs.
Proof.
  induction rs as [|r rs IH]; [reflexivity|].
  simpl in *. now rewrite IH.
Qed.

(** The end of the read that was started last. *)
Lemma onloadend_last (f : File) (result : option jsstring) (p : Picker)
      (rs : list File) :
  readers p = rs ++ [f] ->
  exists p',
    ImageUploader.step (LoadEnd (List.length rs) result) p = (p', [])
    /\ preview p' = result /\ readers p' = rs.
Proof.
  intros Hr. simpl. unfold onloadend. rewrite Hr.
  rewrite nth_error_app2, Nat.sub_diag by lia. simpl.
  eexists; repeat split. apply drop_last.
Qed.

(** The native input of a control stays in place. *)
Lemma step_keeps_ref (e : ImageUploader.Event) (p : Picker) :
  fileInputRef p <> None ->
  fileInputRef (fst (ImageUploader.step e p)) <> None.
Proof.
  intros H. destruct e as [chosen | files | i result]; simpl.
  - unfold handleFileChange. destruct (firstFile (Some chosen)); simpl;
      [destruct (negb _)|]; simpl; discriminate.
  - unfold handleDrop. destruct (firstFile files); simpl; auto.
    destruct (isImage _); simpl; auto.
    destruct (fileInputRef p); [discriminate | contradiction].
  - unfold onloadend. destruct (nth_error _ _); simpl; auto.
Qed.

Lemma reachable_ref ok w :
  reachable ok w -> forall slot, fileInputRef (picker slot w) <> None.
Proof.
  induction 1 as [|e w Hw IH Hok]; intros slot.
  - destruct slot; discriminate.
  - destruct e as [sl pe| v | v | | | i o]; simpl.
    + unfold pickerTurn.
      destruct (ImageUploader.step pe (picker sl w)) as [p effs] eqn:E.
      rewrite picker_emit, picker_setApp.
      pose proof (step_keeps_ref pe _ (IH sl)) as K. rewrite E in K.
      destruct slot, sl; simpl; auto;
        [apply (IH ProductSlot) | apply (IH LogoSlot)].
    + rewrite picker_setApp. apply IH.
    + rewrite picker_setApp. apply IH.
    + destruct (disabled (app w)); [apply IH|].
      unfold invoke. destruct (run_turn _ _) as [[s obs] r].
      destruct slot; simpl; [apply (IH ProductSlot) | apply (IH LogoSlot)].
    + unfold invoke. destruct (run_turn _ _) as [[s obs] r].
      destruct slot; simpl; [apply (IH ProductSlot) | apply (IH LogoSlot)].
    + unfold settle. destruct (nth_error _ _); [|apply IH].
      destruct (run_turn _ _) as [[s obs] r].
      destruct slot; simpl; [apply (IH ProductSlot) | apply (IH LogoSlot)].
Qed.

(** The turn in which the read that was started last ends: the preview
    gets the result, nobody is called, App is not written. *)
Lemma loadEnd_turn slot (f : File) (result : option jsstring) (w : World)
      (rs : list File) :
  readers (picker slot w) = rs ++ [f] ->
  let w' := pickerTurn slot (LoadEnd (List.length rs) result) w in
  preview (picker slot w') = result
  /\ trace w' = trace w
  /\ app w' = app w.
Proof.
  intros Hr.
  destruct (onloadend_last f result _ _ Hr) as (p' & Hs & Hp & _).
  destruct (pickerTurn_spec slot _ _ _ _ Hs) as (A & B & _ & D).
  cbv zeta. rewrite A, B, D. simpl. now rewrite app_nil_r.
Qed.

End Picker.

(* ===================================================================== *)
(** ** The submit handler, turn by turn *)
(* ===================================================================== *)

Section Handler.

Lemma incomplete_iff (s : State) : incomplete s <-> isFormValid s = false.
Proof.
  unfold incomplete, isFormValid.
  rewrite <- !truthy_false_iff, !andb_false_iff.
  destruct (productImage s), (logoImage s); simpl; intuition congruence.
Qed.

(** Incomplete, in terms of the characters typed: a text counts as
    empty when it is empty or whitespace only. *)
Lemma incomplete_whitespace (s : State) :
  incomplete s
  <-> productImage s = None \/ logoImage s = None
      \/ forallb isWhiteSpace (subject s) = true
      \/ forallb isWhiteSpace (scene s) = true.
Proof. unfold incomplete. now rewrite !trim_nil_iff. Qed.

Lemma handleGenerate_incomplete (s : State) :
  isFormValid s = false ->
  handleGenerate s = set (SetError (Some validation_message)).
Proof. intros H. unfold handleGenerate. now rewrite H. Qed.

Lemma first_turn (s s' : State) :
  isFormValid s = true ->
  run_turn (handleGenerate s) s'
  = (enterLoading s', [Called (FileToBase64 (productImage s))],
     Some (awaitingProduct s)).
Proof. intros H. unfold handleGenerate. now rewrite H. Qed.

Lemma product_resolved (s s' : State) (p : jsstring) :
  run_turn (resume (awaitingProduct s) (Resolved p)) s'
  = (s', [Called (FileToBase64 (logoImage s))], Some (awaitingLogo s p)).
Proof. reflexivity. Qed.

Lemma logo_resolved (s s' : State) (p l : jsstring) :
  run_turn (resume (awaitingLogo s p) (Resolved l)) s'
  = (s', [Called (GenerateProductScene p l (subject s) (scene s))],
     Some (awaitingResult s p l)).
Proof. reflexivity. Qed.

Lemma result_resolved (s s' : State) (p l r : jsstring) :
  run_turn (resume (awaitingResult s p l) (Resolved r)) s'
  = (write (SetIsLoading false) (write (SetGeneratedImage (Some r)) s'),
     [], None).
Proof. reflexivity. Qed.

(** A rejection at any of the three [await]s goes through [catch] and
    [finally] in the same turn. *)
Lemma rejected (q : t unit) (s' : State) (e : Thrown) :
  InFlight q ->
  run_turn (resume q (Rejected e)) s'
  = (write (SetIsLoading false) (write (SetError (Some (message_of e))) s'),
     [Logged e], None).
Proof. intros [s | s p | s p l]; reflexivity. Qed.

End Handler.

(* ===================================================================== *)
(** ** The result fields along the page's own events *)
(* ===================================================================== *)

Section Page.

(** The writes of the form leave the result fields alone. *)
Lemma formWrite_result (x : Write) (s : State) :
  formWrite x = true ->
  generatedImage (write x s) = generatedImage s
  /\ isLoading (write x s) = isLoading s
  /\ error (write x s) = error s.
Proof. destruct x; simpl; intros H; try discriminate; now repeat split. Qed.

Lemma reports_result (slot : Slot) (fs : list (option File)) (s : State) :
  let s' := fold_left (fun s f => write (onFileChange slot f) s) fs s in
  generatedImage s' = generatedImage s
  /\ isLoading s' = isLoading s
  /\ error s' = error s.
Proof.
  revert s. induction fs as [|f fs IH]; intros s; simpl; [now repeat split|].
  destruct (IH (write (onFileChange slot f) s)) as (A & B & C).
  rewrite A, B, C. apply formWrite_result. now destruct slot.
Qed.

Lemma generationResult_ext (s s' : State) :
  generatedImage s' = generatedImage s ->
  isLoading s' = isLoading s ->
  error s' = error s ->
  generationResult s' = generationResult s.
Proof. unfold generationResult. now intros -> -> ->. Qed.

Lemma pickerTurn_result slot e w :
  pending (pickerTurn slot e w) = pending w
  /\ generationResult (app (pickerTurn slot e w)) = generationResult (app w).
Proof.
  unfold pickerTurn.
  destruct (ImageUploader.step e (picker slot w)) as [p effs].
  split; [now destruct slot|].
  destruct (reports_result slot (ImageUploader.reported effs) (app w))
    as (A & B & C).
  destruct slot; simpl; now apply generationResult_ext.
Qed.

Lemma loading_iff (s : State) :
  generationResult s = Some Loading
  <-> isLoading s = true /\ error s = None /\ generatedImage s = None.
Proof.
  unfold generationResult.
  destruct (isLoading s), (error s), (generatedImage s);
    split; intros H; try discriminate; try (now repeat split);
    destruct H as (A & B & C); congruence.
Qed.

(** The invariant of the page. *)
Lemma pageInv_step (e : Event) (w : World) :
  fromPage e = true -> PageInv w -> PageInv (step e w).
Proof.
  intros He Hw.
  destruct e as [slot pe | v | v | | | i o]; simpl; try discriminate.
  - destruct (pickerTurn_result slot pe w) as [Hp Hg].
    unfold PageInv, Settled, Busy in *. now rewrite Hp, Hg.
  - exact Hw.
  - exact Hw.
  - destruct (disabled (app w)) eqn:D; [exact Hw|].
    apply orb_false_iff in D. destruct D as [V L].
    apply negb_false_iff in V.
    destruct Hw as [[Hp _] | [_ Hb]].
    + right. unfold invoke. rewrite (first_turn _ _ V). simpl. rewrite Hp.
      split; [|reflexivity]. eexists; split; [reflexivity | constructor].
    + apply loading_iff in Hb. destruct Hb as [Hb _]. congruence.
  - destruct Hw as [[Hp Hg] | [(p & Hp & Hf) Hb]].
    + left. unfold settle. rewrite Hp.
      destruct i; simpl; split; assumption.
    + unfold settle. rewrite Hp.
      destruct i as [|[|i]]; simpl;
        [| right; split; [now exists p | exact Hb] ..].
      destruct o as [v | err].
      * destruct Hf as [s | s a | s a b].
        -- rewrite product_resolved. right. simpl.
           split; [eexists; split; [reflexivity | constructor] | exact Hb].
        -- rewrite logo_resolved. right. simpl.
           split; [eexists; split; [reflexivity | constructor] | exact Hb].
        -- rewrite result_resolved. left. simpl. split; [reflexivity|].
           apply loading_iff in Hb. destruct Hb as (_ & Hb & _).
           unfold generationResult; simpl. rewrite Hb.
           exists (Success v). split; [reflexivity | discriminate].
      * rewrite (rejected _ _ _ Hf). left. simpl. split; [reflexivity|].
        apply loading_iff in Hb. destruct Hb as (_ & _ & Hb).
        unfold generationResult; simpl. rewrite Hb.
        exists (Error (message_of err)). split; [reflexivity | discriminate].
Qed.

Lemma pageInv_reachable (w : World) : reachable fromPage w -> PageInv w.
Proof.
  induction 1 as [|e w Hw IH He].
  - left. split; [reflexivity|]. exists Idle. split; [reflexivity | discriminate].
  - now apply pageInv_step.
Qed.

Lemma reachable_steps ok (es : list Event) (w : World) :
  reachable ok w -> forallb ok es = true -> reachable ok (steps es w).
Proof.
  revert w. induction es as [|e es IH]; intros w Hw Hes; simpl in *.
  - exact Hw.
  - apply andb_true_iff in Hes. destruct Hes as [He Hes].
    apply IH; [now constructor | exact Hes].
Qed.

Lemma reachable_any (w : World) :
  reachable fromPage w -> reachable anyEvent w.
Proof. induction 1; now constructor. Qed.

End Page.

(* ===================================================================== *)
(** ** The sample worlds *)
(* ===================================================================== *)

Section SampleWorlds.

Import Samples.

Lemma complete_iff (s : State) : complete s <-> isFormValid s = true.
Proof.
  unfold complete, isFormValid. rewrite !andb_true_iff.
  assert (T : forall x, truthy x = true <-> x <> []).
  { intros [|c x]; simpl; split; congruence. }
  rewrite !T.
  assert (I : (exists p l, productImage s = Some p /\ logoImage s = Some l)
              <-> isSome (productImage s) = true
                  /\ isSome (logoImage s) = true).
  { destruct (productImage s) as [p|], (logoImage s) as [l|]; simpl; split;
      try (intros (p' & l' & A & B); discriminate);
      try (intros [A B]; discriminate); eauto. }
  tauto.
Qed.

Lemma filled_reachable : reachable fromPage filled.
Proof. apply reachable_steps; [constructor | reflexivity]. Qed.

Lemma encoding_product_reachable : reachable fromPage encoding_product.
Proof. constructor; [apply filled_reachable | reflexivity]. Qed.

Lemma generating_reachable : reachable fromPage generating.
Proof.
  apply reachable_steps; [apply encoding_product_reachable | reflexivity].
Qed.

Lemma succeeded_reachable : reachable fromPage succeeded.
Proof. constructor; [apply generating_reachable | reflexivity]. Qed.

Lemma blanked_reachable : reachable fromPage blanked.
Proof. constructor; [apply succeeded_reachable | reflexivity]. Qed.

End SampleWorlds.

(* ===================================================================== *)
(** ** Claims about the ImageUploader control *)
(* ===================================================================== *)

Section PickerClaims.

Import ImageUploader Samples.

(** C6.  A file that is not an image, presented to a control through the
    file dialog or by a drop: the parent's callback is not called in that
    turn (so never with that file), exactly one alert is raised, the
    preview of the control stays what it was and no read of the file is
    started, so that no later turn can put it in the preview either; and
    everything App holds stays, the selection the control reported before
    included. *)
Theorem nonimage_file_rejected
        (slot : Slot) (f : File) (rest : list File)
        (e : ImageUploader.Event) (w : World) :
  isImage f = false ->
  e = DialogChange (f :: rest) \/ e = Drop (Some (f :: rest)) ->
  let w' := App.step (PickerEvent slot e) w in
  exists effs msg,
    trace w' = trace w ++ map (FromPicker slot) effs
    /\ reported effs = []
    /\ alerts effs = [msg]
    /\ (msg = lit "Please select an image file."
        \/ msg = lit "Please drop an image file.")
    /\ preview (picker slot w') = preview (picker slot w)
    /\ readers (picker slot w') = readers (picker slot w)
    /\ app w' = app w
    /\ selection slot (app w') = selection slot (app w).
Proof.
  intros Hf He.
  destruct (reject_turn f rest e (picker slot w) Hf He)
    as (p' & effs & msg & Hs & Hr & Ha & Hm & Hp & Hq).
  destruct (pickerTurn_spec slot e w _ _ Hs) as (A & B & _ & D).
  rewrite Hr in D. simpl in D.
  exists effs, msg. cbv zeta.
  change (App.step (PickerEvent slot e) w) with (pickerTurn slot e w).
  rewrite A, D. now repeat split.
Qed.

Lemma nonimage_file_rejected_witness :
  isImage document_pdf = false
  /\ (Drop (Some [document_pdf]) = DialogChange [document_pdf]
      \/ Drop (Some [document_pdf]) = Drop (Some [document_pdf]))
  /\ exists effs msg,
       trace (App.step (PickerEvent ProductSlot (Drop (Some [document_pdf])))
                       succeeded)
       = trace succeeded ++ map (FromPicker ProductSlot) effs
       /\ reported effs = []
       /\ alerts effs = [msg]
       /\ (msg = lit "Please select an image file."
           \/ msg = lit "Please drop an image file.")
       /\ preview (picker ProductSlot
                     (App.step (PickerEvent ProductSlot
                                            (Drop (Some [document_pdf])))
                               succeeded))
          = preview (picker ProductSlot succeeded)
       /\ readers (picker ProductSlot
                     (App.step (PickerEvent ProductSlot
                                            (Drop (Some [document_pdf])))
                               succeeded))
          = readers (picker ProductSlot succeeded)
       /\ app (App.step (PickerEvent ProductSlot (Drop (Some [document_pdf])))
                        succeeded)
          = app succeeded
       /\ selection ProductSlot
            (app (App.step (PickerEvent ProductSlot
                                        (Drop (Some [document_pdf])))
                           succeeded))
          = selection ProductSlot (app succeeded).
Proof.
  split; [reflexivity|]. split; [right; reflexivity|].
  apply (nonimage_file_rejected ProductSlot document_pdf []
           (Drop (Some [document_pdf])) succeeded);
    [reflexivity | right; reflexivity].
Defined.

(** C7.  An image file, presented through the file dialog or by a drop:
    in the turn of the gesture the parent's callback is called exactly
    once, with the file itself, and App holds it as the selection of that
    control; the preview is not written in that turn.  It is written in
    the later turn in which the read ends, and that turn calls nobody. *)
Theorem image_file_reported_once
        (slot : Slot) (f : File) (rest : list File)
        (e : ImageUploader.Event) (w : World) :
  isImage f = true ->
  e = DialogChange (f :: rest) \/ e = Drop (Some (f :: rest)) ->
  let w' := App.step (PickerEvent slot e) w in
  (exists effs,
     trace w' = trace w ++ map (FromPicker slot) effs
     /\ reported effs = [Some f]
     /\ alerts effs = [])
  /\ selection slot (app w') = Some f
  /\ preview (picker slot w') = preview (picker slot w)
  /\ readers (picker slot w') = readers (picker slot w) ++ [f]
  /\ forall result : option jsstring,
       let n := List.length (readers (picker slot w)) in
       let w'' := App.step (PickerEvent slot (LoadEnd n result)) w' in
       preview (picker slot w'') = result
       /\ trace w'' = trace w'
       /\ app w'' = app w'.
Proof.
  intros Hf He.
  destruct (accept_turn f rest e (picker slot w) Hf He)
    as (p' & effs & Hs & Hr & Ha & Hp & Hq).
  destruct (pickerTurn_spec slot e w _ _ Hs) as (A & B & _ & D).
  rewrite Hr in D. simpl in D. cbv zeta.
  change (App.step (PickerEvent slot e) w) with (pickerTurn slot e w).
  split; [now exists effs|].
  pose proof Hq as Hq'. rewrite <- A in Hq'.
  split; [now rewrite D, selection_onFileChange|].
  split; [now rewrite A|]. split; [now rewrite A|].
  intros result. exact (loadEnd_turn slot f result _ _ Hq').
Qed.

Lemma image_file_reported_once_witness :
  isImage cat_png = true
  /\ (DialogChange [cat_png] = DialogChange [cat_png]
      \/ DialogChange [cat_png] = Drop (Some [cat_png]))
  /\ selection LogoSlot
       (app (App.step (PickerEvent LogoSlot (DialogChange [cat_png])) start))
     = Some cat_png.
Proof.
  split; [reflexivity|]. split; [left; reflexivity|].
  exact (proj1 (proj2 (image_file_reported_once LogoSlot cat_png []
                         (DialogChange [cat_png]) start
                         eq_refl (or_introl eq_refl)))).
Defined.

(** C9.  After an accepted drop the native file input of the control
    holds exactly the dropped file, the file that was reported to the
    parent in the same turn and that App now holds for the control. *)
Theorem drop_synchronises_input
        (slot : Slot) (f : File) (rest : list File) (w : World) :
  reachable anyEvent w ->
  isImage f = true ->
  let w' := App.step (PickerEvent slot (Drop (Some (f :: rest)))) w in
  fileInputRef (picker slot w') = Some [f]
  /\ selection slot (app w') = Some f
  /\ exists effs,
       trace w' = trace w ++ map (FromPicker slot) effs
       /\ reported effs = [Some f].
Proof.
  intros Hw Hf. pose proof (reachable_ref _ _ Hw slot) as Href.
  assert (Hs : ImageUploader.step (Drop (Some (f :: rest))) (picker slot w)
               = (setInputFiles [f] (startReader f (picker slot w)),
                  [PreventDefault; StopPropagation;
                   ReadAsDataURL f; OnFileChange (Some f)])).
  { simpl. unfold handleDrop. simpl. rewrite Hf. simpl.
    destruct (fileInputRef (picker slot w)); [reflexivity | contradiction]. }
  destruct (pickerTurn_spec slot _ w _ _ Hs) as (A & B & _ & D).
  cbv zeta.
  change (App.step (PickerEvent slot (Drop (Some (f :: rest)))) w)
    with (pickerTurn slot (Drop (Some (f :: rest))) w).
  rewrite A, D. simpl.
  rewrite selection_onFileChange. repeat split.
  eexists; split; [exact B | reflexivity].
Qed.

Lemma drop_synchronises_input_witness :
  reachable anyEvent start
  /\ isImage logo_png = true
  /\ fileInputRef
       (picker LogoSlot
          (App.step (PickerEvent LogoSlot (Drop (Some [logo_png; cat_png])))
                    start))
     = Some [logo_png].
Proof.
  split; [constructor|]. split; [reflexivity|].
  exact (proj1 (drop_synchronises_input LogoSlot logo_png [cat_png] start
                  (reach_start anyEvent) eq_refl)).
Defined.

End PickerClaims.

(* ===================================================================== *)
(** ** Claims about the result state and its rendering *)
(* ===================================================================== *)

Section ResultClaims.

Import Samples.






End ResultClaims.

(* ===================================================================== *)
(** ** Claims about submitting an incomplete form *)
(* ===================================================================== *)

Section IncompleteClaims.

Import Samples.

Lemma invoke_incomplete (w : World) :
  incomplete (app w) ->
  step CallHandleGenerate w
  = setApp (write (SetError (Some validation_message)) (app w)) w.
Proof.
  intros H. apply incomplete_iff in H. simpl. unfold invoke.
  rewrite (handleGenerate_incomplete _ H). simpl.
  unfold setApp. now rewrite !app_nil_r.
Qed.

(** C2 as stated fails: [handleGenerate] is called with an incomplete
    form after a success; no call is made, but the stored image stays
    next to the validation message, so the result is not the Failed state
    (no tag fits) and the image is rendered beside the error panel. *)
Lemma incomplete_submit_after_success_is_not_failed :
  incomplete (app blanked)
  /\ generationResult (app blanked)
     = Some (Success (lit "data:image/png;base64,AAAA"))
  /\ generationResult (app (step CallHandleGenerate blanked)) = None
  /\ render (app (step CallHandleGenerate blanked))
     = [ErrorPanel validation_message;
        ResultImage (lit "data:image/png;base64,AAAA")].
Proof.
  split; [right; right; left; reflexivity|]. repeat split.
Qed.

(** C2, as the code has it.  [handleGenerate] called while the form is
    incomplete: no call to a collaborator is made in that turn and none
    is left suspended, so GenerationClient is not invoked; the error
    field holds the fixed validation message and the error panel shows
    it.  The result is the Failed state, exactly Error(validation
    message), when no image was stored and nothing was loading; a stored
    image and a set loading flag are left as they were. *)
Theorem incomplete_submit_fails (w : World) :
  incomplete (app w) ->
  let w' := step CallHandleGenerate w in
  trace w' = trace w
  /\ pending w' = pending w
  /\ generations (appObs (trace w')) = generations (appObs (trace w))
  /\ error (app w') = Some validation_message
  /\ In (ErrorPanel validation_message) (render (app w'))
  /\ generatedImage (app w') = generatedImage (app w)
  /\ isLoading (app w') = isLoading (app w)
  /\ (generationResult (app w') = Some (Error validation_message)
      <-> isLoading (app w) = false /\ generatedImage (app w) = None).
Proof.
  intros H. cbv zeta. rewrite (invoke_incomplete w H). simpl.
  do 4 (split; [reflexivity|]).
  split; [unfold render; simpl; apply in_or_app; right; now left|].
  do 2 (split; [reflexivity|]).
  unfold generationResult. simpl.
  destruct (isLoading (app w)), (generatedImage (app w)); split;
    try discriminate; try (intros [A B]; discriminate); now auto.
Qed.

Lemma incomplete_submit_fails_witness :
  incomplete (app blanked)
  /\ generations (appObs (trace (step CallHandleGenerate blanked)))
     = generations (appObs (trace blanked))
  /\ error (app (step CallHandleGenerate blanked)) = Some validation_message.
Proof.
  assert (H : incomplete (app blanked)) by (right; right; left; reflexivity).
  split; [exact H|].
  pose proof (incomplete_submit_fails blanked H) as K. cbv zeta in K.
  split; [exact (proj1 (proj2 (proj2 K)))
         | exact (proj1 (proj2 (proj2 (proj2 K))))].
Defined.

(** C10.  [handleGenerate] called while the form is incomplete performs
    one write, [setError] of the validation message: the stored image and
    the loading flag are what they were, and a stored Success payload
    stays in the state next to the new message. *)
Theorem incomplete_submit_writes_error_only (w : World) :
  incomplete (app w) ->
  let w' := step CallHandleGenerate w in
  handleGenerate (app w) = set (SetError (Some validation_message))
  /\ app w' = write (SetError (Some validation_message)) (app w)
  /\ generatedImage (app w') = generatedImage (app w)
  /\ isLoading (app w') = isLoading (app w)
  /\ forall g, generationResult (app w) = Some (Success g) ->
               generatedImage (app w') = Some g
               /\ error (app w') = Some validation_message.
Proof.
  intros H. cbv zeta. rewrite (invoke_incomplete w H). simpl.
  split; [apply handleGenerate_incomplete; now apply incomplete_iff|].
  do 3 (split; [reflexivity|]).
  intros g Hg. unfold generationResult in Hg.
  destruct (isLoading (app w)), (error (app w)), (generatedImage (app w));
    simpl; split; congruence.
Qed.

Lemma incomplete_submit_writes_error_only_witness :
  incomplete (app blanked)
  /\ generatedImage (app stale_result)
     = Some (lit "data:image/png;base64,AAAA")
  /\ error (app stale_result) = Some validation_message.
Proof.
  assert (H : incomplete (app blanked)) by (right; right; left; reflexivity).
  split; [exact H|].
  exact (proj2 (proj2 (proj2 (proj2
           (incomplete_submit_writes_error_only blanked H))))
           (lit "data:image/png;base64,AAAA") eq_refl).
Defined.

End IncompleteClaims.

(* ===================================================================== *)
(** ** Claims about a submission *)
(* ===================================================================== *)

Section SubmissionClaims.

Import Samples.

(** C3 as stated fails: the form is complete and the button is clicked,
    the encode of the product image is rejected, and the submission ends
    without a single call of GenerationClient. *)
Lemma encode_failure_skips_generation :
  reachable fromPage encode_failed
  /\ complete (app filled)
  /\ pending encode_failed = []
  /\ calls (appObs (trace encode_failed)) = [FileToBase64 (Some cat_png)]
  /\ generations (appObs (trace encode_failed)) = 0.
Proof.
  split; [constructor; [apply encoding_product_reachable | reflexivity]|].
  split; [apply complete_iff; reflexivity|].
  repeat split.
Qed.

(** C3, as the code has it.  [handleGenerate] called with a complete
    form: its first turn sets loading, clears error and stored image (the
    result is Loading) and calls FileEncoder on the product image, long
    before GenerationClient is called, let alone resolves.  When both
    encodes resolve, the calls are: encode product, encode logo, then
    GenerationClient once, with the two payloads and the two texts.
    However the calls are settled, GenerationClient is invoked at most
    once, and it is invoked only if both encodes resolved. *)
Theorem complete_submit_calls (w : World) :
  complete (app w) ->
  let s := app w in
  let w' := step CallHandleGenerate w in
  (app w' = enterLoading s
   /\ generationResult (app w') = Some Loading
   /\ pending w' = pending w ++ [awaitingProduct s]
   /\ trace w' = trace w ++ [FromApp (Called (FileToBase64 (productImage s)))])
  /\ (forall p l o,
        restOf (run [Resolved p; Resolved l; o] (handleGenerate s) s) = None
        /\ calls (obsOf (run [Resolved p; Resolved l; o] (handleGenerate s) s))
           = [FileToBase64 (productImage s);
              FileToBase64 (logoImage s);
              GenerateProductScene p l (subject s) (scene s)]
        /\ generations
             (obsOf (run [Resolved p; Resolved l; o] (handleGenerate s) s))
           = 1)
  /\ (forall outs,
        generations (obsOf (run outs (handleGenerate s) s)) <= 1
        /\ (generations (obsOf (run outs (handleGenerate s) s)) = 1 ->
            exists p l outs', outs = Resolved p :: Resolved l :: outs')).
Proof.
  intros H. apply complete_iff in H. cbv zeta.
  split; [|split].
  - simpl. unfold invoke. rewrite (first_turn _ _ H). now repeat split.
  - intros p l o. unfold handleGenerate. rewrite H.
    destruct o; now repeat split.
  - intros outs. unfold handleGenerate. rewrite H.
    destruct outs as [|[p|e] [|[l|e'] [|[r|e''] [|o outs]]]];
      cbn; (split; [lia|]); intros G; try discriminate; eauto.
Qed.

Lemma complete_submit_calls_witness :
  complete (app filled)
  /\ generationResult (app (step CallHandleGenerate filled)) = Some Loading.
Proof.
  assert (H : complete (app filled)) by (apply complete_iff; reflexivity).
  split; [exact H|].
  exact (proj1 (proj2 (proj1 (complete_submit_calls filled H)))).
Defined.

Lemma busy_pending (w : World) (i : nat) (q : t unit) :
  reachable fromPage w ->
  nth_error (pending w) i = Some q ->
  i = 0 /\ pending w = [q] /\ generationResult (app w) = Some Loading.
Proof.
  intros Hw Hq.
  destruct (pageInv_reachable w Hw) as [[Hp _] | [(p & Hp & Hf) Hb]];
    rewrite Hp in Hq.
  - destruct i; discriminate.
  - destruct i as [|[|i]]; try discriminate.
    injection Hq as <-. now repeat split.
Qed.

Lemma Forall_cut {A : Type} (P : A -> Prop) (n : nat) (l : list A) :
  Forall P l -> Forall P (firstn n l) /\ Forall P (skipn n l).
Proof.
  intros H. rewrite <- (firstn_skipn n l) in H. now apply Forall_app in H.
Qed.

(** Whatever the events, only runs of [handleGenerate] are suspended. *)
Lemma inFlight_reachable ok (w : World) :
  reachable ok w -> Forall InFlight (pending w).
Proof.
  assert (I : forall w, Forall InFlight (pending w) ->
                        Forall InFlight (pending (invoke w))).
  { intros v Hv. unfold invoke.
    destruct (isFormValid (app v)) eqn:V.
    - rewrite (first_turn _ _ V). simpl.
      apply Forall_app. split; [exact Hv | repeat constructor].
    - rewrite (handleGenerate_incomplete _ V). simpl.
      now rewrite app_nil_r. }
  induction 1 as [|e w Hw IH He]; [constructor|].
  destruct e as [slot pe | v | v | | | i o]; simpl; auto.
  - now rewrite (proj1 (pickerTurn_result slot pe w)).
  - destruct (disabled (app w)); auto.
  - unfold settle. destruct (nth_error (pending w) i) as [q|] eqn:Q; auto.
    assert (Hq : InFlight q).
    { apply nth_error_In in Q. rewrite Forall_forall in IH. now apply IH. }
    destruct (Forall_cut InFlight i _ IH) as [F _].
    destruct (Forall_cut InFlight (S i) _ IH) as [_ K].
    destruct o as [x | err].
    + destruct Hq as [s | s a | s a b].
      * rewrite product_resolved. simpl. apply Forall_app.
        split; [exact F | constructor; [constructor | exact K]].
      * rewrite logo_resolved. simpl. apply Forall_app.
        split; [exact F | constructor; [constructor | exact K]].
      * rewrite result_resolved. simpl. apply Forall_app. now split.
    + rewrite (rejected _ _ _ Hq). simpl. apply Forall_app. now split.
Qed.

(** C4.  GenerationClient resolves with [r] for a submission that waits
    for it: in that one turn the stored image becomes exactly [r] and the
    loading flag is cleared, and no further call is made.  From Loading
    the result is Success(r) at once; along the page's own events the
    result is Loading whenever a submission waits, and nothing stays
    suspended afterwards. *)
Theorem generation_success
        (w : World) (i : nat) (q : t unit) (p l sj sc r : jsstring) :
  reachable anyEvent w ->
  nth_error (pending w) i = Some q ->
  awaited q = Some (GenerateProductScene p l sj sc) ->
  let w' := step (Settle i (Resolved r)) w in
  generatedImage (app w') = Some r
  /\ isLoading (app w') = false
  /\ error (app w') = error (app w)
  /\ trace w' = trace w
  /\ (generationResult (app w) = Some Loading ->
      generationResult (app w') = Some (Success r))
  /\ (reachable fromPage w ->
      generationResult (app w) = Some Loading /\ pending w' = []).
Proof.
  intros Hw Hq Ha.
  assert (Hf : InFlight q).
  { pose proof (inFlight_reachable _ _ Hw) as F.
    rewrite Forall_forall in F. apply F. now apply nth_error_In in Hq. }
  cbv zeta. simpl. unfold settle. rewrite Hq.
  destruct Hf as [s | s a | s a b]; try discriminate.
  rewrite result_resolved. simpl. rewrite app_nil_r.
  do 4 (split; [reflexivity|]). split.
  - intros Hb. apply loading_iff in Hb. destruct Hb as (_ & He & _).
    unfold generationResult. simpl. now rewrite He.
  - intros Hp. destruct (busy_pending w i _ Hp Hq) as (-> & Hl & Hb).
    split; [exact Hb|]. now rewrite Hl.
Qed.

Lemma generation_success_witness :
  reachable anyEvent generating
  /\ nth_error (pending generating) 0
     = Some (awaitingResult (app filled)
               (lit "data:image/png;base64,iVBO")
               (lit "data:image/png;base64,iVBORw"))
  /\ awaited (awaitingResult (app filled)
                (lit "data:image/png;base64,iVBO")
                (lit "data:image/png;base64,iVBORw"))
     = Some (GenerateProductScene
               (lit "data:image/png;base64,iVBO")
               (lit "data:image/png;base64,iVBORw")
               (lit "A dog") (lit "On the moon"))
  /\ generatedImage
       (app (step (Settle 0 (Resolved (lit "data:image/png;base64,AAAA")))
                  generating))
     = Some (lit "data:image/png;base64,AAAA").
Proof.
  split; [exact (reachable_any _ generating_reachable)|].
  split; [reflexivity|]. split; [reflexivity|].
  exact (proj1
    (generation_success generating 0
       (awaitingResult (app filled)
          (lit "data:image/png;base64,iVBO")
          (lit "data:image/png;base64,iVBORw"))
       (lit "data:image/png;base64,iVBO")
       (lit "data:image/png;base64,iVBORw")
       (lit "A dog") (lit "On the moon")
       (lit "data:image/png;base64,AAAA")
       (reachable_any _ generating_reachable) eq_refl eq_refl)).
Defined.

(** C5.  A call a submission waits for (an encode or GenerationClient) is
    rejected with [e]: in that one turn the loading flag is cleared and
    the error field is set, to the message of [e] itself when [e] is an
    Error and to the fixed fallback otherwise; the failure is logged and
    no call is made.  From Loading the result is Error(message) at once,
    and a non-empty message is what the error panel, the only block
    rendered, shows; along the page's own events the result is Loading
    whenever a submission waits, and nothing stays suspended afterwards. *)
Theorem submission_failure
        (w : World) (i : nat) (q : t unit) (e : Thrown) :
  reachable anyEvent w ->
  nth_error (pending w) i = Some q ->
  let w' := step (Settle i (Rejected e)) w in
  error (app w') = Some (message_of e)
  /\ (forall m, e = ErrorInstance m -> error (app w') = Some m)
  /\ (forall v, e = NotAnError v ->
                error (app w') = Some unknown_error_message)
  /\ isLoading (app w') = false
  /\ generatedImage (app w') = generatedImage (app w)
  /\ trace w' = trace w ++ [FromApp (Logged e)]
  /\ (generationResult (app w) = Some Loading ->
      generationResult (app w') = Some (Error (message_of e))
      /\ (message_of e <> [] ->
          render (app w') = [ErrorPanel (message_of e)]))
  /\ (reachable fromPage w ->
      generationResult (app w) = Some Loading /\ pending w' = []).
Proof.
  intros Hw Hq.
  assert (Hf : InFlight q).
  { pose proof (inFlight_reachable _ _ Hw) as F.
    rewrite Forall_forall in F. apply F. now apply nth_error_In in Hq. }
  cbv zeta. simpl. unfold settle. rewrite Hq.
  rewrite (rejected _ _ _ Hf). simpl.
  split; [reflexivity|].
  split; [now intros m ->|].
  split; [now intros v ->|].
  do 3 (split; [reflexivity|]). split.
  - intros Hb. apply loading_iff in Hb. destruct Hb as (_ & _ & Hg).
    unfold generationResult, render. simpl. rewrite Hg.
    split; [reflexivity|].
    destruct (message_of e); [congruence | reflexivity].
  - intros Hp. destruct (busy_pending w i _ Hp Hq) as (-> & Hl & Hb).
    split; [exact Hb|]. now rewrite Hl.
Qed.

Lemma submission_failure_witness :
  reachable anyEvent generating
  /\ nth_error (pending generating) 0
     = Some (awaitingResult (app filled)
               (lit "data:image/png;base64,iVBO")
               (lit "data:image/png;base64,iVBORw"))
  /\ error (app quota_exceeded) = Some (lit "quota exceeded")
  /\ render (app quota_exceeded) = [ErrorPanel (lit "quota exceeded")].
Proof.
  split; [exact (reachable_any _ generating_reachable)|].
  split; [reflexivity|].
  pose proof
    (submission_failure generating 0
       (awaitingResult (app filled)
          (lit "data:image/png;base64,iVBO")
          (lit "data:image/png;base64,iVBORw"))
       (ErrorInstance (lit "quota exceeded"))
       (reachable_any _ generating_reachable) eq_refl) as K.
  cbv zeta in K. split; [exact (proj1 K)|].
  refine (proj2 (proj1 (proj2 (proj2 (proj2 (proj2 (proj2 (proj2 K))))))
                   eq_refl) _).
  discriminate.
Defined.

(** C8.  The submit button is disabled while the loading flag is set and
    whenever the form is incomplete, and a click on it then changes
    nothing: no write, no call, nothing new in flight.  Along the page's
    own events at most one submission is in flight, and while one is, the
    loading flag is set, so the button stays inert until it resolves. *)
Theorem submit_button_inert (w : World) :
  reachable fromPage w ->
  (isLoading (app w) = true \/ incomplete (app w) ->
   disabled (app w) = true /\ step ClickGenerate w = w)
  /\ List.length (pending w) <= 1
  /\ (pending w <> [] ->
      generationResult (app w) = Some Loading /\ step ClickGenerate w = w)
  /\ (generationResult (app w) = Some Loading -> pending w <> []).
Proof.
  intros Hw.
  assert (D : isLoading (app w) = true \/ incomplete (app w) ->
              disabled (app w) = true /\ step ClickGenerate w = w).
  { intros H.
    assert (D : disabled (app w) = true).
    { unfold disabled. destruct H as [-> | H].
      - apply orb_true_r.
      - apply incomplete_iff in H. now rewrite H. }
    split; [exact D|]. simpl. now rewrite D. }
  split; [exact D|].
  destruct (pageInv_reachable w Hw) as [[Hp (g & Hg & Hn)] | [(p & Hp & Hf) Hb]];
    rewrite Hp; simpl.
  - split; [lia|]. split; [congruence|]. intros L. congruence.
  - split; [lia|]. split; [|discriminate].
    intros _. split; [exact Hb|].
    apply loading_iff in Hb. destruct Hb as [Hb _].
    destruct D as [_ D]; [now left|]. exact D.
Qed.

Lemma submit_button_inert_witness :
  reachable fromPage generating
  /\ List.length (pending generating) <= 1
  /\ step ClickGenerate generating = generating.
Proof.
  split; [exact generating_reachable|].
  pose proof (submit_button_inert generating generating_reachable) as K.
  split; [exact (proj1 (proj2 K))|].
  refine (proj2 (proj1 K _)). left. reflexivity.
Defined.

(** The inertness is the button's: [handleGenerate] itself does not look
    at the loading flag, and a direct call while a submission waits puts
    a second one in flight. *)
Remark direct_call_while_loading :
  disabled (app generating) = true
  /\ List.length (pending (step CallHandleGenerate generating)) = 2.
Proof. split; reflexivity. Qed.

End SubmissionClaims.

(* ===================================================================== *)
(** ** More about the form and the controls *)
(* ===================================================================== *)

Section FormFacts.

Import ImageUploader Samples Props.

Lemma startsWith_iff (s p : jsstring) :
  startsWith s p = true <-> exists rest, s = p ++ rest.
Proof.
  revert s. induction p as [|c p IH]; intros s; simpl.
  - split; [intros _; now exists s | now destruct s].
  - destruct s as [|d s]; simpl.
    + split; [discriminate | intros [rest H]; discriminate].
    + rewrite andb_true_iff, N.eqb_eq, IH. split.
      * intros [-> [rest ->]]. now exists rest.
      * intros [rest H]. injection H as -> ->. split; [reflexivity|].
        now exists rest.
Qed.

Lemma nonBlank_iff (s : jsstring) :
  nonBlank s = true <-> trim s <> [].
Proof.
  rewrite trim_nil_iff. unfold nonBlank.
  induction s as [|c s IH]; simpl.
  - split; [discriminate | congruence].
  - destruct (isWhiteSpace c); simpl; [exact IH|].
    split; [discriminate | reflexivity].
Qed.

(** X1.  The form is valid exactly when both images are selected and
    subject and scene each hold a character that is not whitespace:
    texts of spaces, tabs or line breaks only count as missing. *)
Theorem isFormValid_iff (s : State) :
  isFormValid s = true
  <-> (exists p, productImage s = Some p)
      /\ (exists l, logoImage s = Some l)
      /\ nonBlank (subject s) = true
      /\ nonBlank (scene s) = true.
Proof.
  rewrite <- complete_iff, !nonBlank_iff. unfold complete. split.
  - intros ((p & l & A & B) & C & D). eauto 10.
  - intros ((p & A) & (l & B) & C & D). eauto 10.
Qed.

(** X2.  Both handlers accept a file exactly when its declared type is
    the six characters [image/] followed by anything, the empty subtype
    included; the comparison is by code unit, so another letter case is
    rejected. *)
Theorem isImage_iff (f : File) :
  isImage f = true <-> exists subtype, file_type f = lit "image/" ++ subtype.
Proof. unfold isImage. apply startsWith_iff. Qed.

Lemma selection_none_invalid (slot : Slot) (s : State) :
  selection slot s = None -> isFormValid s = false.
Proof.
  unfold isFormValid. destruct slot; simpl; intros ->; simpl;
    [reflexivity | now destruct (isSome (productImage s))].
Qed.

(** X3.  The file dialog closes with no file: the control clears its
    preview and shows the upload prompt, the parent's callback is called
    once, with null, and nobody is alerted; App then holds no file for
    that control, the form is invalid and a click on the submit button
    does nothing. *)
Theorem dialog_dismissed_clears (slot : Slot) (w : World) :
  let w' := App.step (PickerEvent slot (DialogChange [])) w in
  trace w' = trace w ++ [FromPicker slot (OnFileChange None)]
  /\ preview (picker slot w') = None
  /\ view (picker slot w') = UploadPrompt
  /\ selection slot (app w') = None
  /\ isFormValid (app w') = false
  /\ disabled (app w') = true
  /\ App.step ClickGenerate w' = w'.
Proof.
  cbv zeta.
  change (App.step (PickerEvent slot (DialogChange [])) w)
    with (pickerTurn slot (DialogChange []) w).
  set (w' := pickerTurn slot (DialogChange []) w).
  assert (Hs : ImageUploader.step (DialogChange []) (picker slot w)
               = (setPreview None (setInputFiles [] (picker slot w)),
                  [OnFileChange None])) by reflexivity.
  destruct (pickerTurn_spec slot _ w _ _ Hs) as (A & B & _ & D).
  fold w' in A, B, D.
  change (app w' = write (onFileChange slot None) (app w)) in D.
  assert (S : selection slot (app w') = None)
    by (rewrite D; apply selection_onFileChange).
  assert (V : isFormValid (app w') = false)
    by exact (selection_none_invalid slot _ S).
  assert (Dis : disabled (app w') = true) by (unfold disabled; now rewrite V).
  rewrite A. repeat split; auto.
  change (App.step ClickGenerate w')
    with (if disabled (app w') then w' else invoke w').
  now rewrite Dis.
Qed.

(** X4.  A drop that is not accepted (nothing dropped, or a first file
    that is not an image) alerts "Please drop an image file." and leaves
    the whole control as it was, its native input and its pending reads
    included; the parent is not called and App is not written. *)
Theorem rejected_drop_changes_nothing
        (slot : Slot) (files : option (list File)) (w : World) :
  isImageOpt (firstFile files) = false \/ firstFile files = None ->
  let w' := App.step (PickerEvent slot (Drop files)) w in
  picker slot w' = picker slot w
  /\ app w' = app w
  /\ pending w' = pending w
  /\ trace w' = trace w
               ++ map (FromPicker slot)
                    [PreventDefault; StopPropagation;
                     Alert (lit "Please drop an image file.")].
Proof.
  intros H. cbv zeta.
  change (App.step (PickerEvent slot (Drop files)) w)
    with (pickerTurn slot (Drop files) w).
  assert (Hs : ImageUploader.step (Drop files) (picker slot w)
               = (picker slot w,
                  [PreventDefault; StopPropagation;
                   Alert (lit "Please drop an image file.")])).
  { simpl. unfold handleDrop.
    destruct (firstFile files) as [f|]; [|reflexivity].
    destruct H as [H | H]; [|discriminate]. simpl in H. now rewrite H. }
  destruct (pickerTurn_spec slot _ w _ _ Hs) as (A & B & C & D).
  now repeat split.
Qed.

Lemma rejected_drop_changes_nothing_witness :
  (isImageOpt (firstFile (Some [document_pdf; cat_png])) = false
   \/ firstFile (Some [document_pdf; cat_png]) = None)
  /\ picker LogoSlot
       (App.step (PickerEvent LogoSlot (Drop (Some [document_pdf; cat_png])))
                 filled)
     = picker LogoSlot filled.
Proof.
  split; [left; reflexivity|].
  exact (proj1 (rejected_drop_changes_nothing LogoSlot
                  (Some [document_pdf; cat_png]) filled
                  (or_introl eq_refl))).
Defined.

(** The turn in which the read that was started last ends, with what is
    left of the pending reads. *)
Lemma loadEnd_readers slot (f : File) (result : option jsstring) (w : World)
      (rs : list File) :
  readers (picker slot w) = rs ++ [f] ->
  let w' := pickerTurn slot (LoadEnd (List.length rs) result) w in
  preview (picker slot w') = result
  /\ readers (picker slot w') = rs
  /\ app w' = app w.
Proof.
  intros Hr.
  destruct (onloadend_last f result _ _ Hr) as (p' & Hs & Hp & Hq).
  destruct (pickerTurn_spec slot _ _ _ _ Hs) as (A & _ & _ & D).
  cbv zeta. now rewrite A, D.
Qed.

(** X5.  Two image files are given to a control one after the other and
    the read of the second ends before the read of the first: the preview
    ends up showing the first file, while App holds the second.  The
    preview follows the read that ended last, not the file selected
    last. *)
Theorem late_read_overwrites_preview
        (slot : Slot) (f g : File) (rest rest' : list File)
        (ef eg : ImageUploader.Event) (rf rg : option jsstring) (w : World) :
  isImage f = true ->
  isImage g = true ->
  ef = DialogChange (f :: rest) \/ ef = Drop (Some (f :: rest)) ->
  eg = DialogChange (g :: rest') \/ eg = Drop (Some (g :: rest')) ->
  let n := List.length (readers (picker slot w)) in
  let w' := steps [PickerEvent slot ef; PickerEvent slot eg;
                   PickerEvent slot (LoadEnd (S n) rg);
                   PickerEvent slot (LoadEnd n rf)] w in
  preview (picker slot w') = rf
  /\ selection slot (app w') = Some g
  /\ readers (picker slot w') = readers (picker slot w).
Proof.
  intros Hf Hg Hef Heg. cbv zeta. unfold steps. simpl fold_left.
  change (App.step (PickerEvent slot ef) w) with (pickerTurn slot ef w).
  set (w1 := pickerTurn slot ef w).
  change (App.step (PickerEvent slot eg) w1) with (pickerTurn slot eg w1).
  set (w2 := pickerTurn slot eg w1).
  set (rs := readers (picker slot w)).
  destruct (accept_turn f rest ef (picker slot w) Hf Hef)
    as (p1 & effs1 & Hs1 & _ & _ & _ & Hq1).
  destruct (pickerTurn_spec slot ef w _ _ Hs1) as (A1 & _). fold w1 in A1.
  destruct (accept_turn g rest' eg (picker slot w1) Hg Heg)
    as (p2 & effs2 & Hs2 & Hr2 & _ & _ & Hq2).
  destruct (pickerTurn_spec slot eg w1 _ _ Hs2) as (A2 & _ & _ & D2).
  fold w2 in A2, D2. rewrite Hr2 in D2. simpl in D2.
  assert (R2 : readers (picker slot w2) = (rs ++ [f]) ++ [g]).
  { rewrite A2, Hq2, A1, Hq1. reflexivity. }
  assert (L : S (List.length rs) = List.length (rs ++ [f])).
  { rewrite length_app. simpl. lia. }
  change (App.step (PickerEvent slot (LoadEnd (S (List.length rs)) rg)) w2)
    with (pickerTurn slot (LoadEnd (S (List.length rs)) rg) w2).
  rewrite L.
  destruct (loadEnd_readers slot g rg w2 _ R2) as (_ & R3 & D3).
  set (w3 := pickerTurn slot (LoadEnd (List.length (rs ++ [f])) rg) w2) in *.
  change (App.step (PickerEvent slot (LoadEnd (List.length rs) rf)) w3)
    with (pickerTurn slot (LoadEnd (List.length rs) rf) w3).
  destruct (loadEnd_readers slot f rf w3 _ R3) as (P4 & R4 & D4).
  rewrite P4, R4, D4, D3, D2. repeat split.
  apply selection_onFileChange.
Qed.

Lemma late_read_overwrites_preview_witness :
  isImage cat_png = true
  /\ isImage logo_png = true
  /\ (DialogChange [cat_png] = DialogChange [cat_png]
      \/ DialogChange [cat_png] = Drop (Some [cat_png]))
  /\ (Drop (Some [logo_png]) = DialogChange [logo_png]
      \/ Drop (Some [logo_png]) = Drop (Some [logo_png]))
  /\ preview
       (picker ProductSlot
          (steps [PickerEvent ProductSlot (DialogChange [cat_png]);
                  PickerEvent ProductSlot (Drop (Some [logo_png]));
                  PickerEvent ProductSlot
                    (LoadEnd 1 (Some (lit "data:image/png;base64,LOGO")));
                  PickerEvent ProductSlot
                    (LoadEnd 0 (Some (lit "data:image/png;base64,CAT")))]
                 start))
     = Some (lit "data:image/png;base64,CAT")
  /\ selection ProductSlot
       (app (steps [PickerEvent ProductSlot (DialogChange [cat_png]);
                    PickerEvent ProductSlot (Drop (Some [logo_png]));
                    PickerEvent ProductSlot
                      (LoadEnd 1 (Some (lit "data:image/png;base64,LOGO")));
                    PickerEvent ProductSlot
                      (LoadEnd 0 (Some (lit "data:image/png;base64,CAT")))]
                   start))
     = Some logo_png.
Proof.
  do 2 (split; [reflexivity|]).
  split; [left; reflexivity|]. split; [right; reflexivity|].
  pose proof
    (late_read_overwrites_preview ProductSlot cat_png logo_png [] []
       (DialogChange [cat_png]) (Drop (Some [logo_png]))
       (Some (lit "data:image/png;base64,CAT"))
       (Some (lit "data:image/png;base64,LOGO")) start
       eq_refl eq_refl (or_introl eq_refl) (or_intror eq_refl)) as K.
  cbv zeta in K. split; [exact (proj1 K) | exact (proj1 (proj2 K))].
Defined.

End FormFacts.

(* ===================================================================== *)
(** ** What the page holds and what it sends out *)
(* ===================================================================== *)

Section Soundness.

Import ImageUploader Samples Props.

Lemma appObs_app (a b : list App.Obs) : appObs (a ++ b) = appObs a ++ appObs b.
Proof.
  induction a as [|[o | sl e] a IH]; simpl; [reflexivity | now rewrite IH | exact IH].
Qed.

Lemma appObs_FromApp (obs : list Async.Obs) : appObs (map FromApp obs) = obs.
Proof. induction obs as [|o obs IH]; simpl; [reflexivity | now rewrite IH]. Qed.

Lemma appObs_FromPicker slot (effs : list Effect) :
  appObs (map (FromPicker slot) effs) = [].
Proof. induction effs as [|e effs IH]; simpl; [reflexivity | exact IH]. Qed.

Lemma calls_app (a b : list Async.Obs) : calls (a ++ b) = calls a ++ calls b.
Proof.
  induction a as [|[c | e | e] a IH]; simpl; [reflexivity | now rewrite IH | exact IH ..].
Qed.

(** What a control reports is null or an image file, whatever the event. *)
Lemma reported_images (e : ImageUploader.Event) (p : Picker) :
  forallb isImageOpt (reported (snd (ImageUploader.step e p))) = true.
Proof.
  destruct e as [chosen | files | i result]; simpl.
  - unfold handleFileChange. destruct (firstFile (Some chosen)) as [f|];
      [|reflexivity].
    destruct (isImage f) eqn:F; simpl; [now rewrite F | reflexivity].
  - unfold handleDrop. destruct (firstFile files) as [f|]; [|reflexivity].
    destruct (isImage f) eqn:F; simpl; [now rewrite F | reflexivity].
  - unfold onloadend. now destruct (nth_error (readers p) i).
Qed.

Lemma soundForm_reports slot (fs : list (option File)) (s : State) :
  forallb isImageOpt fs = true ->
  soundForm s = true ->
  soundForm (fold_left (fun s f => write (onFileChange slot f) s) fs s) = true.
Proof.
  revert s. induction fs as [|f fs IH]; intros s Hfs Hs; simpl in *; auto.
  apply andb_true_iff in Hfs. destruct Hfs as [Hf Hfs].
  apply IH; [exact Hfs|].
  unfold soundForm in *. apply andb_true_iff in Hs. destruct Hs as [A B].
  destruct slot; simpl; rewrite Hf; [exact B | now rewrite A].
Qed.

Lemma valid_form_calls (s : State) :
  isFormValid s = true -> soundForm s = true ->
  soundCall (FileToBase64 (productImage s)) = true
  /\ soundCall (FileToBase64 (logoImage s)) = true
  /\ forall p l,
       soundCall (GenerateProductScene p l (subject s) (scene s)) = true.
Proof.
  unfold isFormValid, soundForm. rewrite !andb_true_iff.
  intros [[[A B] C] D] [E F].
  destruct (productImage s), (logoImage s); try discriminate.
  simpl in *. repeat split; auto. intros _ _. now rewrite C, D.
Qed.

Lemma sound_emit (tr : list App.Obs) (obs : list Async.Obs) :
  forallb soundCall (calls (appObs tr)) = true ->
  forallb soundCall (calls obs) = true ->
  forallb soundCall (calls (appObs (tr ++ map FromApp obs))) = true.
Proof.
  rewrite appObs_app, appObs_FromApp, calls_app, forallb_app.
  now intros -> ->.
Qed.

Ltac world_fields :=
  unfold Sound; cbn [app pending trace productPicker logoPicker opt_list].

Lemma sound_invoke (w : World) : Sound w -> Sound (invoke w).
Proof.
  intros (F & P & C). unfold invoke.
  destruct (isFormValid (app w)) eqn:V.
  - rewrite (first_turn _ _ V). world_fields.
    destruct (valid_form_calls _ V F) as (K & _).
    split; [exact F|]. split.
    + apply Forall_app. split; [exact P | now repeat constructor].
    + apply sound_emit; [exact C|]. cbn [calls forallb]. now rewrite K.
  - rewrite (handleGenerate_incomplete _ V). world_fields.
    cbn [set run_turn]. world_fields. split; [exact F|]. split.
    + now rewrite app_nil_r.
    + now apply sound_emit.
Qed.

Lemma sound_step (e : App.Event) (w : World) : Sound w -> Sound (App.step e w).
Proof.
  intros H. destruct e as [slot pe | v | v | | | i o]; simpl.
  - destruct H as (F & P & C).
    destruct (ImageUploader.step pe (picker slot w)) as [p effs] eqn:E.
    destruct (pickerTurn_spec slot pe w _ _ E) as (_ & B & Q & D).
    unfold Sound. rewrite B, Q, D, appObs_app, appObs_FromPicker, app_nil_r.
    split; [|now split].
    apply soundForm_reports; [|exact F].
    pose proof (reported_images pe (picker slot w)) as R. now rewrite E in R.
  - exact H.
  - exact H.
  - destruct (disabled (app w)); [exact H | now apply sound_invoke].
  - now apply sound_invoke.
  - destruct H as (F & P & C). unfold settle.
    destruct (nth_error (pending w) i) as [q|] eqn:Q; [|now repeat split].
    assert (Hq : SoundFlight q).
    { apply nth_error_In in Q. rewrite Forall_forall in P. now apply P. }
    destruct (Forall_cut SoundFlight i _ P) as [P1 _].
    destruct (Forall_cut SoundFlight (S i) _ P) as [_ P2].
    destruct o as [x | err].
    + destruct Hq as [s V G | s a V G | s a b V G];
        destruct (valid_form_calls _ V G) as (_ & K1 & K2).
      * rewrite product_resolved. world_fields.
        split; [exact F|]. split.
        -- apply Forall_app. split; [exact P1|].
           constructor; [now constructor | exact P2].
        -- apply sound_emit; [exact C|]. cbn [calls forallb]. now rewrite K1.
      * rewrite logo_resolved. world_fields.
        split; [exact F|]. split.
        -- apply Forall_app. split; [exact P1|].
           constructor; [now constructor | exact P2].
        -- apply sound_emit; [exact C|]. cbn [calls forallb]. now rewrite K2.
      * rewrite result_resolved. world_fields.
        split; [exact F|]. split.
        -- apply Forall_app. now split.
        -- now apply sound_emit.
    + assert (I : InFlight q) by (destruct Hq; constructor).
      rewrite (rejected _ _ _ I). world_fields.
      split; [exact F|]. split.
      * apply Forall_app. now split.
      * now apply sound_emit.
Qed.

Lemma sound_reachable ok (w : World) : reachable ok w -> Sound w.
Proof.
  induction 1 as [|e w Hw IH He].
  - repeat split. constructor.
  - now apply sound_step.
Qed.

(** X6.  Whatever event a control gets, it calls the parent with null or
    with an image file only; so in every world, however reached, the
    product image and the logo image that App holds are image files. *)
Theorem app_holds_image_files (w : World) (slot : Slot) (f : File) :
  reachable anyEvent w ->
  selection slot (app w) = Some f ->
  isImage f = true
  /\ forall (e : ImageUploader.Event) (g : File),
       In (Some g) (reported (snd (ImageUploader.step e (picker slot w)))) ->
       isImage g = true.
Proof.
  intros Hw Hs. split.
  - destruct (sound_reachable _ _ Hw) as (F & _).
    unfold soundForm in F. apply andb_true_iff in F. destruct F as [A B].
    destruct slot; simpl in Hs; rewrite Hs in *; assumption.
  - intros e g Hg.
    pose proof (reported_images e (picker slot w)) as R.
    rewrite forallb_forall in R. exact (R _ Hg).
Qed.

Lemma app_holds_image_files_witness :
  reachable anyEvent stale_result
  /\ selection LogoSlot (app stale_result) = Some logo_png
  /\ isImage logo_png = true.
Proof.
  assert (R : reachable anyEvent stale_result).
  { constructor; [|reflexivity]. apply reachable_any, blanked_reachable. }
  split; [exact R|]. split; [reflexivity|].
  exact (proj1 (app_holds_image_files stale_result LogoSlot logo_png
                  R eq_refl)).
Defined.

(** X7.  In every world, however reached, each call App has made to a
    collaborator was well formed: FileEncoder was given an image file,
    never null, and GenerationClient was given a subject and a scene that
    are not blank. *)
Theorem collaborator_calls_sound (w : World) (c : Call) :
  reachable anyEvent w ->
  In c (calls (appObs (trace w))) ->
  match c with
  | FileToBase64 o => exists f, o = Some f /\ isImage f = true
  | GenerateProductScene _ _ sj sc => nonBlank sj = true /\ nonBlank sc = true
  end.
Proof.
  intros Hw Hc.
  destruct (sound_reachable _ _ Hw) as (_ & _ & C).
  rewrite forallb_forall in C. specialize (C _ Hc).
  destruct c as [[f|] | p l sj sc]; simpl in C.
  - now exists f.
  - discriminate.
  - apply andb_true_iff in C. destruct C as [A B].
    rewrite !nonBlank_iff. split; intros E; [rewrite E in A | rewrite E in B];
      discriminate.
Qed.

Lemma collaborator_calls_sound_witness :
  reachable anyEvent generating
  /\ In (GenerateProductScene (lit "data:image/png;base64,iVBO")
                              (lit "data:image/png;base64,iVBORw")
                              (lit "A dog") (lit "On the moon"))
        (calls (appObs (trace generating)))
  /\ nonBlank (lit "A dog") = true /\ nonBlank (lit "On the moon") = true.
Proof.
  assert (R : reachable anyEvent generating)
    by exact (reachable_any _ generating_reachable).
  assert (I : In (GenerateProductScene (lit "data:image/png;base64,iVBO")
                                       (lit "data:image/png;base64,iVBORw")
                                       (lit "A dog") (lit "On the moon"))
                 (calls (appObs (trace generating))))
    by (right; right; left; reflexivity).
  split; [exact R|]. split; [exact I|].
  exact (collaborator_calls_sound generating _ R I).
Defined.

End Soundness.

(* ===================================================================== *)
(** ** More about submissions *)
(* ===================================================================== *)

Section SubmissionFacts.

Import ImageUploader Samples Props.

Lemma form_step (e : App.Event) (w : World) :
  formEvent e = true ->
  generatedImage (app (App.step e w)) = generatedImage (app w)
  /\ isLoading (app (App.step e w)) = isLoading (app w)
  /\ error (app (App.step e w)) = error (app w)
  /\ pending (App.step e w) = pending w
  /\ appObs (trace (App.step e w)) = appObs (trace w).
Proof.
  destruct e as [slot pe | v | v | | | i o]; try discriminate; intros _.
  - change (App.step (PickerEvent slot pe) w) with (pickerTurn slot pe w).
    destruct (ImageUploader.step pe (picker slot w)) as [p effs] eqn:E.
    destruct (pickerTurn_spec slot pe w _ _ E) as (_ & B & Q & D).
    rewrite B, Q, D, appObs_app, appObs_FromPicker, app_nil_r.
    destruct (reports_result slot (reported effs) (app w)) as (X & Y & Z).
    now repeat split.
  - now repeat split.
  - now repeat split.
Qed.

(** X8.  Editing the form, however often (files chosen, dropped, rejected
    or cleared, previews loaded, texts typed), never touches the result:
    the stored image, the loading flag and the error message stay what
    they were, so the result panel renders the same blocks; no collaborator
    is called and a submission in flight is not disturbed. *)
Theorem form_edits_keep_result (es : list App.Event) (w : World) :
  forallb formEvent es = true ->
  generatedImage (app (steps es w)) = generatedImage (app w)
  /\ isLoading (app (steps es w)) = isLoading (app w)
  /\ error (app (steps es w)) = error (app w)
  /\ render (app (steps es w)) = render (app w)
  /\ pending (steps es w) = pending w
  /\ appObs (trace (steps es w)) = appObs (trace w).
Proof.
  revert w. induction es as [|e es IH]; intros w H; simpl in *.
  - now repeat split.
  - apply andb_true_iff in H. destruct H as [He Hes].
    destruct (IH (App.step e w) Hes) as (A & B & C & _ & P & T).
    destruct (form_step e w He) as (A' & B' & C' & P' & T').
    fold (steps es (App.step e w)) in *.
    assert (G : generatedImage (app (steps es (App.step e w)))
                = generatedImage (app w)) by congruence.
    assert (L : isLoading (app (steps es (App.step e w))) = isLoading (app w))
      by congruence.
    assert (E : error (app (steps es (App.step e w))) = error (app w))
      by congruence.
    repeat split; try congruence.
    unfold render, truthy_opt. now rewrite G, L, E.
Qed.

Lemma form_edits_keep_result_witness :
  forallb formEvent
    [ChangeSubject (lit "A cat");
     PickerEvent LogoSlot (DialogChange [])] = true
  /\ render (app (steps [ChangeSubject (lit "A cat");
                         PickerEvent LogoSlot (DialogChange [])]
                        quota_exceeded))
     = render (app quota_exceeded).
Proof.
  split; [reflexivity|].
  exact (proj1 (proj2 (proj2 (proj2
    (form_edits_keep_result
       [ChangeSubject (lit "A cat"); PickerEvent LogoSlot (DialogChange [])]
       quota_exceeded eq_refl))))).
Defined.

Lemma settle_head (o : Outcome) (w : World) (q : t unit) (rest : list (t unit))
      (s' : State) (obs : list Async.Obs) (r : option (t unit)) :
  pending w = q :: rest ->
  run_turn (resume q o) (app w) = (s', obs, r) ->
  app (App.step (Settle 0 o) w) = s'
  /\ pending (App.step (Settle 0 o) w) = opt_list r ++ rest
  /\ appObs (trace (App.step (Settle 0 o) w)) = appObs (trace w) ++ obs.
Proof.
  intros Hp Hr. simpl. unfold settle. rewrite Hp. simpl. rewrite Hr. simpl.
  now rewrite appObs_app, appObs_FromApp.
Qed.

(** X9.  A submission works on the form as it was when the button was
    clicked.  Whatever is edited while the encodes are awaited (other
    files chosen, texts retyped), the logo that is encoded and the
    subject and scene that GenerationClient gets are those of the click,
    together with the two payloads FileEncoder resolved with. *)
Theorem submission_uses_clicked_form
        (w : World) (es1 es2 : list App.Event) (p l : jsstring) :
  reachable fromPage w ->
  disabled (app w) = false ->
  forallb formEvent es1 = true ->
  forallb formEvent es2 = true ->
  let w1 := steps es1 (App.step ClickGenerate w) in
  let w2 := steps es2 (App.step (Settle 0 (Resolved p)) w1) in
  let w3 := App.step (Settle 0 (Resolved l)) w2 in
  calls (appObs (trace w3))
  = calls (appObs (trace w))
    ++ [FileToBase64 (productImage (app w));
        FileToBase64 (logoImage (app w));
        GenerateProductScene p l (subject (app w)) (scene (app w))]
  /\ pending w3 = [awaitingResult (app w) p l].
Proof.
  intros Hw Hd H1 H2. cbv zeta.
  apply orb_false_iff in Hd. destruct Hd as [V L].
  apply negb_false_iff in V.
  assert (Hp : pending w = []).
  { destruct (pageInv_reachable w Hw) as [[Hp _] | [_ Hb]]; [exact Hp|].
    apply loading_iff in Hb. destruct Hb as [Hb _]. congruence. }
  set (w0 := App.step ClickGenerate w).
  assert (P0 : pending w0 = [awaitingProduct (app w)]
               /\ appObs (trace w0)
                  = appObs (trace w)
                    ++ [Called (FileToBase64 (productImage (app w)))]).
  { unfold w0. simpl. unfold disabled. rewrite V, L. simpl.
    unfold invoke. rewrite (first_turn _ _ V). simpl. rewrite Hp.
    now rewrite appObs_app. }
  destruct P0 as [P0 T0].
  destruct (form_edits_keep_result es1 w0 H1) as (_ & _ & _ & _ & P1 & T1).
  set (w1 := steps es1 w0) in *. rewrite P0 in P1. rewrite T0 in T1.
  destruct (settle_head (Resolved p) w1 _ _ _ _ _ P1
              (product_resolved (app w) (app w1) p)) as (_ & P1' & T1').
  set (w1' := App.step (Settle 0 (Resolved p)) w1) in *.
  destruct (form_edits_keep_result es2 w1' H2) as (_ & _ & _ & _ & P2 & T2).
  set (w2 := steps es2 w1') in *. rewrite P1' in P2. rewrite T1', T1 in T2.
  destruct (settle_head (Resolved l) w2 _ _ _ _ _ P2
              (logo_resolved (app w) (app w2) p l)) as (_ & P3 & T3).
  split; [|exact P3].
  rewrite T3, T2, !calls_app. simpl. now rewrite <- !app_assoc.
Qed.

Lemma submission_uses_clicked_form_witness :
  reachable fromPage filled
  /\ disabled (app filled) = false
  /\ forallb formEvent [ChangeSubject (lit "A cat")] = true
  /\ forallb formEvent [PickerEvent LogoSlot (DialogChange [cat_png])] = true
  /\ pending
       (App.step (Settle 0 (Resolved (lit "L")))
          (steps [PickerEvent LogoSlot (DialogChange [cat_png])]
             (App.step (Settle 0 (Resolved (lit "P")))
                (steps [ChangeSubject (lit "A cat")]
                       (App.step ClickGenerate filled)))))
     = [awaitingResult (app filled) (lit "P") (lit "L")].
Proof.
  split; [exact filled_reachable|]. do 3 (split; [reflexivity|]).
  exact (proj2 (submission_uses_clicked_form filled
                  [ChangeSubject (lit "A cat")]
                  [PickerEvent LogoSlot (DialogChange [cat_png])]
                  (lit "P") (lit "L")
                  filled_reachable eq_refl eq_refl eq_refl)).
Defined.

(** X10.  However the awaited calls are settled, a run of
    [handleGenerate] lets no exception escape, is over after at most
    three settled calls, and, when it started with a valid form, ends
    with the loading flag cleared.  With an invalid form it is over in
    its first turn and calls nobody. *)
Theorem handleGenerate_always_finishes
        (s s0 : State) (outs : list Outcome) :
  let R := run outs (handleGenerate s) s0 in
  noUncaught (obsOf R) = true
  /\ (3 <= List.length outs -> restOf R = None)
  /\ (restOf R = None -> isFormValid s = true ->
      isLoading (stateOf R) = false)
  /\ (isFormValid s = false -> restOf R = None /\ calls (obsOf R) = []).
Proof.
  cbv zeta. unfold handleGenerate.
  destruct (isFormValid s) eqn:V; simpl negb; cbv iota.
  - destruct outs as [|[p|e] [|[l|e'] [|[r|e''] [|o outs]]]]; cbn;
      repeat split; intros; try reflexivity; try discriminate; lia.
  - destruct outs as [|o outs]; cbn; repeat split; intros;
      try reflexivity; discriminate.
Qed.

(** X11.  Along the page's own events, an error message in the state is
    always the message of a failure that was logged to the console: the
    message of a rejected call, or the fallback.  The validation message
    of [handleGenerate] is never set by a click, because the button takes
    no click while the form is invalid. *)
Theorem shown_error_was_logged (w : World) (m : jsstring) :
  reachable fromPage w ->
  error (app w) = Some m ->
  exists e, m = message_of e /\ In (FromApp (Logged e)) (trace w).
Proof.
  intros Hw. revert m. induction Hw as [|e w Hw IH He]; intros m Hm.
  - discriminate.
  - pose proof (pageInv_reachable w Hw) as Inv.
    destruct e as [slot pe | v | v | | | i o]; try discriminate.
    + destruct (form_step (PickerEvent slot pe) w eq_refl) as (_ & _ & E & _).
      rewrite E in Hm. destruct (IH m Hm) as (x & -> & Hx). exists x.
      split; [reflexivity|].
      change (App.step (PickerEvent slot pe) w) with (pickerTurn slot pe w).
      destruct (ImageUploader.step pe (picker slot w)) as [p effs] eqn:S.
      destruct (pickerTurn_spec slot pe w _ _ S) as (_ & B & _).
      rewrite B. apply in_or_app. now left.
    + exact (IH m Hm).
    + exact (IH m Hm).
    + simpl in *. destruct (disabled (app w)) eqn:D; [exact (IH m Hm)|].
      apply orb_false_iff in D. destruct D as [V _].
      apply negb_false_iff in V.
      unfold invoke in Hm. rewrite (first_turn _ _ V) in Hm. discriminate.
    + simpl in *. unfold settle in *.
      destruct Inv as [[Hp _] | [(q & Hp & Hf) _]]; rewrite Hp in *.
      * destruct i; exact (IH m Hm).
      * destruct i as [|[|i]]; simpl in *; [|exact (IH m Hm) ..].
        destruct o as [x | err].
        -- destruct Hf as [s | s a | s a b].
           ++ rewrite product_resolved in *. simpl in *.
              destruct (IH m Hm) as (y & -> & Hy). exists y.
              split; [reflexivity | apply in_or_app; now left].
           ++ rewrite logo_resolved in *. simpl in *.
              destruct (IH m Hm) as (y & -> & Hy). exists y.
              split; [reflexivity | apply in_or_app; now left].
           ++ rewrite result_resolved in *. simpl in *.
              destruct (IH m Hm) as (y & -> & Hy). exists y.
              split; [reflexivity | apply in_or_app; now left].
        -- rewrite (rejected _ _ _ Hf) in *. simpl in *.
           injection Hm as <-. exists err.
           split; [reflexivity | apply in_or_app; right; now left].
Qed.

Lemma shown_error_was_logged_witness :
  reachable fromPage quota_exceeded
  /\ error (app quota_exceeded) = Some (lit "quota exceeded")
  /\ exists e, lit "quota exceeded" = message_of e
               /\ In (FromApp (Logged e)) (trace quota_exceeded).
Proof.
  assert (R : reachable fromPage quota_exceeded)
    by (constructor; [apply generating_reachable | reflexivity]).
  split; [exact R|]. split; [reflexivity|].
  exact (shown_error_was_logged quota_exceeded (lit "quota exceeded")
           R eq_refl).
Defined.

(** X12.  The blocks of the result panel test truthiness.  When the call
    a submission waits for is rejected with an Error whose message is
    empty, or GenerationClient resolves with an empty payload, the result
    panel goes back to the empty placeholder: the failure shows no error
    panel and the empty result no image. *)
Theorem empty_outcome_shows_placeholder (w : World) (i : nat) (q : t unit) :
  reachable fromPage w ->
  nth_error (pending w) i = Some q ->
  render (app (App.step (Settle i (Rejected (ErrorInstance []))) w))
  = [EmptyPlaceholder]
  /\ error (app (App.step (Settle i (Rejected (ErrorInstance []))) w))
     = Some []
  /\ (forall p l sj sc,
        awaited q = Some (GenerateProductScene p l sj sc) ->
        render (app (App.step (Settle i (Resolved [])) w))
        = [EmptyPlaceholder]
        /\ generatedImage (app (App.step (Settle i (Resolved [])) w))
           = Some []).
Proof.
  intros Hw Hq.
  destruct (busy_pending w i q Hw Hq) as (-> & Hp & Hb).
  assert (Hf : InFlight q).
  { pose proof (inFlight_reachable _ _ Hw) as F. rewrite Hp in F.
    now inversion F. }
  apply loading_iff in Hb. destruct Hb as (_ & He & Hg).
  simpl. unfold settle. rewrite Hp. simpl.
  rewrite (rejected _ _ _ Hf). unfold render. simpl. rewrite Hg.
  do 2 (split; [reflexivity|]).
  intros p l sj sc Ha.
  destruct Hf as [s | s a | s a b]; try discriminate.
  rewrite result_resolved. simpl. now rewrite He.
Qed.

Lemma empty_outcome_shows_placeholder_witness :
  reachable fromPage generating
  /\ nth_error (pending generating) 0
     = Some (awaitingResult (app filled)
               (lit "data:image/png;base64,iVBO")
               (lit "data:image/png;base64,iVBORw"))
  /\ render (app (App.step (Settle 0 (Rejected (ErrorInstance [])))
                           generating))
     = [EmptyPlaceholder].
Proof.
  split; [exact generating_reachable|]. split; [reflexivity|].
  exact (proj1 (empty_outcome_shows_placeholder generating 0 _
                  generating_reachable eq_refl)).
Defined.

End SubmissionFacts.
